(** * rpx_inject: SNES/NES ROM injection into a decompressed Wii U VC RPX

    A shallow embedding of [tools/wii_disc_converter/rpx_inject.py] and the
    properties of its header codec, ROM normaliser, offset locator and
    splicer.

    Conventions.
    - A [bytes]/[bytearray] value is a [list Z]; Python integers are [Z].
    - Python slicing (negative indices count from the end, out-of-range
      bounds are clamped) is written out in [py_slice].
    - A Python exception ([struct.error], [IndexError]) is [None] in the
      [option] monad; a Python [None] result is a separate, inner value.
    - Logging calls are dropped: they only print. *)

From stdpp Require Import base numbers option list gmap.

Local Open Scope Z_scope.

(** ** Python values *)

Abbreviation bytes := (list Z).

Definition len (data : bytes) : Z := Z.of_nat (length data).

(** The normalisation of one slice bound against a sequence of length [n]. *)
Definition py_bound (n i : Z) : Z :=
  if i <? 0 then Z.max 0 (n + i) else Z.min i n.

(** [data[i:j]] *)
Definition py_slice (data : bytes) (i j : Z) : bytes :=
  let lo := py_bound (len data) i in
  let hi := py_bound (len data) j in
  take (Z.to_nat (hi - lo)) (drop (Z.to_nat lo) data).

(** [data[i:]] *)
Definition py_slice_from (data : bytes) (i : Z) : bytes :=
  drop (Z.to_nat (py_bound (len data) i)) data.

(** [data[:j]] *)
Definition py_slice_to (data : bytes) (j : Z) : bytes :=
  take (Z.to_nat (py_bound (len data) j)) data.

(** [data[i]]: [None] is [IndexError]. *)
Definition py_index (data : bytes) (i : Z) : option Z :=
  let k := if i <? 0 then len data + i else i in
  if (0 <=? k) && (k <? len data) then data !! Z.to_nat k else None.

(** ** Constants *)

Definition SNES_LOROM_HEADER : Z := 0x7FC0.
Definition SNES_HIROM_HEADER : Z := 0xFFC0.

(** [b'WUP-'] *)
Definition WUP_SIGNATURE : bytes := [0x57; 0x55; 0x50; 0x2D].

Definition SNES_TITLE_OFFSET : Z := 0x00.
Definition SNES_CHECKSUM_COMP_OFFSET : Z := 0x1C.
Definition SNES_CHECKSUM_OFFSET : Z := 0x1E.

(** ** ROM normaliser *)

Definition strip_smc_header (rom_data : bytes) : bytes :=
  let size := len rom_data in
  if size `mod` 1024 =? 512 then py_slice_from rom_data 512 else rom_data.


(** ** Header codec *)

(** [struct.unpack('<H', bs)[0]]; [struct.error] unless [bs] has 2 bytes. *)
Definition unpack_H (bs : bytes) : option Z :=
  match bs with
  | [b0; b1] => Some (b0 + 256 * b1)
  | _ => None
  end.

(** [struct.pack_into('<H', data, offset, value)]: a negative [offset]
    counts from the end; [struct.error] when the two bytes do not fit or
    [value] is not an unsigned 16-bit number. *)
Definition pack_into_H (data : bytes) (offset value : Z) : option bytes :=
  off ← (if offset <? 0 then
           if offset + 2 >? 0 then None
           else if offset + len data <? 0 then None
           else Some (offset + len data)
         else Some offset);
  if len data - off <? 2 then None
  else if negb ((0 <=? value) && (value <=? 0xFFFF)) then None
  else Some (<[Z.to_nat (off + 1) := Z.land (Z.shiftr value 8) 0xFF]>
               (<[Z.to_nat off := Z.land value 0xFF]> data)).

(** The [return] statement by which [validate_snes_header] leaves. *)
Inductive header_verdict :=
  | window_past_end      (* offset + 0x20 > len(data): False *)
  | checksum_match       (* (checksum + complement) & 0xFFFF == 0xFFFF: True *)
  | title_printable      (* printable >= 15: True *)
  | no_match.            (* False *)

Definition verdict_value (v : header_verdict) : bool :=
  match v with
  | checksum_match | title_printable => true
  | window_past_end | no_match => false
  end.

(** [0x20 <= b <= 0x7E or b == 0x00] *)
Definition is_printable (b : Z) : bool :=
  ((0x20 <=? b) && (b <=? 0x7E)) || (b =? 0x00).

(** [sum(1 for b in title if ...)] *)
Definition count_printable (title : bytes) : Z :=
  foldr (fun b n => if is_printable b then 1 + n else n) 0 title.

Definition validate_snes_header_verdict (data : bytes) (offset : Z)
    : option header_verdict :=
  if offset + 0x20 >? len data then Some window_past_end
  else
    let header := py_slice data offset (offset + 0x20) in
    checksum ← unpack_H
      (py_slice header SNES_CHECKSUM_OFFSET (SNES_CHECKSUM_OFFSET + 2));
    complement ← unpack_H
      (py_slice header SNES_CHECKSUM_COMP_OFFSET (SNES_CHECKSUM_COMP_OFFSET + 2));
    if Z.land (checksum + complement) 0xFFFF =? 0xFFFF then Some checksum_match
    else
      let title := py_slice header SNES_TITLE_OFFSET (SNES_TITLE_OFFSET + 21) in
      let printable := count_printable title in
      if printable >=? 15 then Some title_printable
      else Some no_match.

Definition validate_snes_header (data : bytes) (offset : Z) : option bool :=
  verdict_value <$> validate_snes_header_verdict data offset.

Inductive rom_type := lorom | hirom.

(** The inner [None] is Python's [None]: the layout cannot be told. *)
Definition detect_snes_rom_type (rom_data : bytes) : option (option rom_type) :=
  (if len rom_data >? SNES_LOROM_HEADER + 0x20
   then validate_snes_header rom_data SNES_LOROM_HEADER
   else Some false) ≫= fun lo : bool =>
  if lo then Some (Some lorom)
  else
    (if len rom_data >? SNES_HIROM_HEADER + 0x20
     then validate_snes_header rom_data SNES_HIROM_HEADER
     else Some false) ≫= fun hi : bool =>
    if hi then Some (Some hirom) else Some None.

(** [sum(data)] *)
Definition sum (data : bytes) : Z := foldr Z.add 0 data.

Definition header_offset_of (offset : Z) (rt : rom_type) : Z :=
  match rt with
  | lorom => offset + SNES_LOROM_HEADER
  | hirom => offset + SNES_HIROM_HEADER
  end.

(** The buffer is updated in place; the value returned here is its new
    content. *)
Definition update_snes_header_checksum (data : bytes) (offset : Z)
    (rt : rom_type) : option bytes :=
  let header_offset := header_offset_of offset rt in
  let checksum := Z.land (sum (py_slice_from data offset)) 0xFFFF in
  let complement := Z.lxor checksum 0xFFFF in
  data ← pack_into_H data (header_offset + SNES_CHECKSUM_COMP_OFFSET) complement;
  pack_into_H data (header_offset + SNES_CHECKSUM_OFFSET) checksum.

(** ** Offset locator *)

Inductive system := snes | nes.

Fixpoint starts_with (data sub : bytes) : bool :=
  match sub, data with
  | [], _ => true
  | _ :: _, [] => false
  | s :: sub', d :: data' => (s =? d) && starts_with data' sub'
  end.

Fixpoint find_from (data sub : bytes) (i : Z) : Z :=
  if starts_with data sub then i
  else match data with
       | [] => -1
       | _ :: data' => find_from data' sub (i + 1)
       end.

(** [data.find(sub)]: the lowest index of an occurrence, or -1. *)
Definition find (data sub : bytes) : Z := find_from data sub 0.

Definition find_wup_header (rpx_data : bytes) : Z := find rpx_data WUP_SIGNATURE.

(** [range(start, stop, step)] for a positive [step]. *)
Definition py_range (start stop step : Z) : list Z :=
  (fun k => start + step * k) <$> seqZ 0 ((stop - start + step - 1) `div` step).

(** Strategy 1, the loop over the deltas; the inner [None] means that the
    loop ran to its end. *)
Fixpoint probe_deltas (rpx_data rom_data : bytes) (sys : system)
    (wup_offset : Z) (deltas : list Z) : option (option Z) :=
  match deltas with
  | [] => Some None
  | delta :: deltas' =>
      let candidate := wup_offset + delta in
      if candidate + len rom_data <=? len rpx_data then
        match sys with
        | snes =>
            rt ← detect_snes_rom_type
                   (py_slice rpx_data candidate (candidate + 0x10000));
            match rt with
            | Some _ => Some (Some candidate)
            | None => probe_deltas rpx_data rom_data sys wup_offset deltas'
            end
        | nes => probe_deltas rpx_data rom_data sys wup_offset deltas'
        end
      else probe_deltas rpx_data rom_data sys wup_offset deltas'
  end.

(** Strategy 2, the loop over the stride positions. *)
Fixpoint scan_headers (rpx_data : bytes) (header_offset : Z)
    (offsets : list Z) : option (option Z) :=
  match offsets with
  | [] => Some None
  | offset :: offsets' =>
      validate_snes_header rpx_data (offset + header_offset) ≫= fun ok : bool =>
      if ok then Some (Some offset)
      else scan_headers rpx_data header_offset offsets'
  end.

Definition probe_delta_list : list Z := [0x20; 0x30; 0x40; 0x100; 0x200].

Definition find_rom_in_rpx (rpx_data rom_data : bytes) (sys : system)
    : option Z :=
  let wup_offset := find_wup_header rpx_data in
  s1 ← (if negb (wup_offset =? -1)
        then probe_deltas rpx_data rom_data sys wup_offset probe_delta_list
        else Some None);
  match s1 with
  | Some candidate => Some candidate
  | None =>
      s2 ← match sys with
           | snes =>
               rt ← detect_snes_rom_type rom_data;
               let header_offset :=
                 match rt with
                 | Some lorom => SNES_LOROM_HEADER
                 | Some hirom => SNES_HIROM_HEADER
                 | None => SNES_LOROM_HEADER
                 end in
               if len rom_data >? header_offset + 0x20 then
                 let search_start := 0x100000 in
                 let search_end := len rpx_data - 0x10000 in
                 scan_headers rpx_data header_offset
                   (py_range search_start search_end 0x8000)
               else Some None
           | nes => Some None
           end;
      match s2 with
      | Some offset => Some offset
      | None =>
          let search_bytes := py_slice_to rom_data 1024 in
          let offset := find rpx_data search_bytes in
          if negb (offset =? -1) then Some offset else Some (-1)
      end
  end.

Definition size_map : gmap Z Z :=
  list_to_map
    [ (0x40, 4 * 1024 * 1024);
      (0x20, 2 * 1024 * 1024);
      (0x10, 1 * 1024 * 1024);
      (0x08, 512 * 1024);
      (0x04, 256 * 1024);
      (0x02, 128 * 1024);
      (0x01, 64 * 1024);
      (0x00, 32 * 1024) ].

(** The entries of [size_map] with the products worked out. *)
Definition size_codes : list (Z * Z) :=
  [ (0x40, 4194304); (0x20, 2097152); (0x10, 1048576); (0x08, 524288);
    (0x04, 262144); (0x02, 131072); (0x01, 65536); (0x00, 32768) ].

(** The inner [None] is Python's [None]: the size is not known. *)
Definition get_original_rom_size (rpx_data : bytes) (wup_offset : Z)
    : option (option Z) :=
  if (wup_offset =? -1) || (wup_offset + 0x10 >=? len rpx_data) then Some None
  else
    size_byte ← py_index rpx_data (wup_offset + 0x0E);
    Some (size_map !! size_byte).

(** ** Splicer *)

(** [while original_size < rom_size: original_size *= 2], at most [fuel]
    times round the loop; [None] when the loop has not ended by then. *)
Fixpoint double_until (fuel : nat) (original_size rom_size : Z) : option Z :=
  if original_size <? rom_size then
    match fuel with
    | O => None
    | S fuel' => double_until fuel' (original_size * 2) rom_size
    end
  else Some original_size.

(** The two [return None] of [inject_rom], told apart by what they log:
    "ROM ... is larger than base game ROM" and "Offset ... + ROM size
    exceeds RPX file size". *)
Inductive inject_error := PayloadTooLarge | OffsetOutOfBounds.

(** [original_size = None] is the default argument. The outer [None] is
    the power-of-two loop out of fuel, which [inject_rom_returns] excludes. *)
Definition inject_rom (rpx_data rom_data : bytes) (offset : Z)
    (original_size : option Z) : option (inject_error + bytes) :=
  let rom_size := len rom_data in
  original_size ← match original_size with
                  | None => double_until (length rom_data) 1 rom_size
                  | Some size => Some size
                  end;
  if rom_size >? original_size then Some (inl PayloadTooLarge)
  else
    let rom_data :=
      if rom_size <? original_size
      then rom_data ++ replicate (Z.to_nat (original_size - rom_size)) 0xFF
      else rom_data in
    if offset + original_size >? len rpx_data then Some (inl OffsetOutOfBounds)
    else
      let result := py_slice_to rpx_data offset ++ rom_data
                    ++ py_slice_from rpx_data (offset + original_size) in
      Some (inr result).

(** ** Buffers as objects

    A [bytearray] is a mutable object, and [main] hands the same object to
    several functions. To state what a call does to the buffers it is
    given, the functions that build or update buffers are also written over
    a store of objects: a [ref] names a [bytearray], slicing and [+] build a
    new object, and [struct.pack_into] updates one in place. *)

Definition store (A : Type) : Type := gmap nat bytes -> option (A * gmap nat bytes).

Definition st_ret {A} (a : A) : store A := fun h => Some (a, h).

Definition st_bind {A B} (m : store A) (k : A -> store B) : store B :=
  fun h => match m h with
           | Some (a, h') => k a h'
           | None => None
           end.

Notation "'let!' x ':=' m 'in' k" := (st_bind m (fun x => k))
  (at level 10, x name, m at level 100, k at level 200).

(** A new object, at an address not in use. *)
Definition st_new (content : bytes) : store nat :=
  fun h => let r := fresh (dom h) in Some (r, <[r := content]> h).

(** The content of an object. *)
Definition st_read (r : nat) : store bytes :=
  fun h => match h !! r with
           | Some content => Some (content, h)
           | None => None
           end.

(** An object updated in place. *)
Definition st_write (r : nat) (content : bytes) : store unit :=
  fun h => match h !! r with
           | Some _ => Some (tt, <[r := content]> h)
           | None => None
           end.

Definition st_lift {A} (o : option A) : store A :=
  fun h => match o with
           | Some a => Some (a, h)
           | None => None
           end.

(** [len(x)], [x + y], [x[:j]], [x[i:]] and [bytearray([b] * n)]. *)
Definition obj_len (x : nat) : store Z :=
  let! a := st_read x in st_ret (len a).

Definition obj_add (x y : nat) : store nat :=
  let! a := st_read x in
  let! b := st_read y in
  st_new (a ++ b).

Definition obj_slice_to (x : nat) (j : Z) : store nat :=
  let! a := st_read x in st_new (py_slice_to a j).

Definition obj_slice_from (x : nat) (i : Z) : store nat :=
  let! a := st_read x in st_new (py_slice_from a i).

Definition obj_fill (b n : Z) : store nat :=
  st_new (replicate (Z.to_nat n) b).

(** [inject_rom] over objects: the result is [None] or a [ref]. *)
Definition inject_rom_obj (rpx_data rom_data : nat) (offset : Z)
    (original_size : option Z) : store (option nat) :=
  let! rom_size := obj_len rom_data in
  let! original_size :=
    match original_size with
    | None => st_lift (double_until (Z.to_nat rom_size) 1 rom_size)
    | Some size => st_ret size
    end in
  if rom_size >? original_size then st_ret None
  else
    let! rom_data :=
      if rom_size <? original_size then
        let! fill := obj_fill 0xFF (original_size - rom_size) in
        obj_add rom_data fill
      else st_ret rom_data in
    let! rpx_size := obj_len rpx_data in
    if offset + original_size >? rpx_size then st_ret None
    else
      let! head := obj_slice_to rpx_data offset in
      let! head_rom := obj_add head rom_data in
      let! tail := obj_slice_from rpx_data (offset + original_size) in
      let! result := obj_add head_rom tail in
      st_ret (Some result).

(** [update_snes_header_checksum] over objects: [data] is updated in
    place. *)
Definition update_snes_header_checksum_obj (data : nat) (offset : Z)
    (rt : rom_type) : store unit :=
  let! content := st_read data in
  let! content' := st_lift (update_snes_header_checksum content offset rt) in
  st_write data content'.

(** [returns m h P]: run from the store [h], [m] returns a value and a
    store in which every object of [h] is as it was, and which satisfy [P]. *)
Definition returns {A} (m : store A) (h : gmap nat bytes)
    (P : A -> gmap nat bytes -> Prop) : Prop :=
  exists a h', m h = Some (a, h') /\ h ⊆ h' /\ P a h'.

(** ** The command line tool

    [main] after [argparse] and [read_file] have done their work: the two
    files are given by their content, the arguments by their parsed values
    ([--offset] and [--rom-size] are any integer, or absent). *)
Record args := {
  arg_system : system;
  arg_offset : option Z;
  arg_rom_size : option Z;
  arg_dry_run : bool
}.

(** The ways in which [main] ends, an uncaught exception apart: a
    [sys.exit] with its status, or [write_file] with what is written. *)
Inductive outcome :=
  | exited (status : Z)
  | wrote (output : bytes).

Definition main (rpx_file rom_file : bytes) (a : args) : option outcome :=
  let rpx_data := rpx_file in
  let rom_data := rom_file in
  match
    match arg_system a with
    | snes =>
        let rom_data := strip_smc_header rom_data in
        detect_snes_rom_type rom_data ≫= fun rt : option rom_type =>
        Some (rom_data, Some (match rt with
                              | Some t => t
                              | None => lorom
                              end))
    | nes => Some (rom_data, None)
    end
  with
  | None => None
  | Some (rom_data, rt) =>
      match
        match arg_offset a with
        | Some offset => Some (Some offset)
        | None =>
            find_rom_in_rpx rpx_data rom_data (arg_system a) ≫= fun offset : Z =>
            if offset =? -1 then Some None else Some (Some offset)
        end
      with
      | None => None
      | Some None => Some (exited 1)
      | Some (Some offset) =>
          match
            match arg_rom_size a with
            | Some size => Some (Some size)
            | None =>
                let wup_offset := find_wup_header rpx_data in
                get_original_rom_size rpx_data wup_offset
            end
          with
          | None => None
          | Some original_size =>
              if arg_dry_run a then Some (exited 0)
              else
                match inject_rom rpx_data rom_data offset original_size with
                | None => None
                | Some (inl _) => Some (exited 1)
                | Some (inr result) =>
                    match arg_system a, rt with
                    | snes, Some rt =>
                        update_snes_header_checksum result offset rt
                          ≫= fun result : bytes => Some (wrote result)
                    | _, _ => Some (wrote result)
                    end
                end
          end
      end
  end.

(** [data[i]] for an index in range, 0 outside. *)
Definition byte_at (data : bytes) (i : Z) : Z := default 0 (data !! Z.to_nat i).

(** ** What the locator is to find

    [occurs_at data sub i]: [sub] occurs byte for byte in [data] at the
    0-based index [i]. *)
Definition occurs_at (data sub : bytes) (i : Z) : Prop :=
  0 <= i /\ i + len sub <= len data /\ py_slice data i (i + len sub) = sub.

(** The signature-anchored probe as the specification words it: the marker
    is found at [s]; of the deltas, taken in order, [delta] is the first
    whose candidate [s + delta] leaves room for the ROM and whose 64 KB
    window is classified as a known layout. *)
Definition probe_accepts (rpx_data rom_data : bytes) (candidate : Z) : Prop :=
  candidate + len rom_data <= len rpx_data
  /\ exists rt, detect_snes_rom_type
                  (py_slice rpx_data candidate (candidate + 0x10000))
                = Some (Some rt).

Definition signature_probe_succeeds_at (rpx_data rom_data : bytes)
    (sys : system) (candidate : Z) : Prop :=
  sys = snes
  /\ find rpx_data WUP_SIGNATURE <> -1
  /\ exists before delta after,
       probe_delta_list = before ++ delta :: after
       /\ candidate = find rpx_data WUP_SIGNATURE + delta
       /\ probe_accepts rpx_data rom_data candidate
       /\ forall d, d ∈ before ->
            ~ probe_accepts rpx_data rom_data (find rpx_data WUP_SIGNATURE + d).

(** ** Slices at in-range bounds *)

Lemma len_nonneg data : 0 <= len data.
Proof. unfold len. lia. Qed.

Lemma len_app (a b : bytes) : len (a ++ b) = len a + len b.
Proof. unfold len. rewrite length_app. lia. Qed.

Lemma len_replicate n (x : Z) : len (replicate n x) = Z.of_nat n.
Proof. unfold len. by rewrite length_replicate. Qed.

Lemma py_bound_in_range n i : 0 <= i <= n -> py_bound n i = i.
Proof. intros H. unfold py_bound. destruct (Z.ltb_spec i 0); lia. Qed.

Lemma py_bound_above n i : 0 <= n <= i -> py_bound n i = n.
Proof. intros H. unfold py_bound. destruct (Z.ltb_spec i 0); lia. Qed.

Lemma py_slice_to_take data j :
  0 <= j -> py_slice_to data j = take (Z.to_nat j) data.
Proof.
  intros Hj. unfold py_slice_to.
  destruct (Z.le_gt_cases j (len data)).
  - by rewrite py_bound_in_range by lia.
  - rewrite py_bound_above by (pose proof (len_nonneg data); lia).
    unfold len in *. rewrite !take_ge by lia. done.
Qed.

Lemma py_slice_from_drop data i :
  0 <= i -> py_slice_from data i = drop (Z.to_nat i) data.
Proof.
  intros Hi. unfold py_slice_from.
  destruct (Z.le_gt_cases i (len data)).
  - by rewrite py_bound_in_range by lia.
  - rewrite py_bound_above by (pose proof (len_nonneg data); lia).
    unfold len in *. rewrite !drop_ge by lia. done.
Qed.

Lemma py_slice_take_drop data i j :
  0 <= i <= j -> j <= len data ->
  py_slice data i j = take (Z.to_nat (j - i)) (drop (Z.to_nat i) data).
Proof.
  intros Hij Hj. unfold py_slice.
  by rewrite !py_bound_in_range by lia.
Qed.

Lemma len_py_slice_from data i :
  0 <= i <= len data -> len (py_slice_from data i) = len data - i.
Proof.
  intros Hi. rewrite py_slice_from_drop by lia.
  unfold len in *. rewrite length_drop. lia.
Qed.

(** ** Wrapper stripping *)

(** C7. [strip_smc_header] drops the first 512 bytes exactly when the length
    is 512 modulo 1024 and returns its argument otherwise; what it returns
    never has a length of 512 modulo 1024, so stripping twice is the same as
    stripping once. *)
Theorem strip_smc_header_idempotent (x : bytes) :
  strip_smc_header x
    = (if decide (len x `mod` 1024 = 512) then drop 512 x else x)
  /\ len (strip_smc_header x) `mod` 1024 <> 512
  /\ strip_smc_header (strip_smc_header x) = strip_smc_header x.
Proof.
  assert (Hshape : strip_smc_header x
      = if decide (len x `mod` 1024 = 512) then drop 512 x else x).
  { unfold strip_smc_header. case_decide as Hm.
    - rewrite Hm. simpl. by rewrite py_slice_from_drop by lia.
    - destruct (Z.eqb_spec (len x `mod` 1024) 512); [lia | done]. }
  assert (Hlen : len (strip_smc_header x) `mod` 1024 <> 512).
  { rewrite Hshape. case_decide as Hm; [| done].
    assert (512 <= len x).
    { pose proof (len_nonneg x).
      destruct (Z.le_gt_cases 512 (len x)); [done |].
      rewrite Z.mod_small in Hm by lia. lia. }
    change (drop 512 x) with (drop (Z.to_nat 512) x).
    rewrite <- py_slice_from_drop by lia.
    rewrite len_py_slice_from by lia.
    intros Hc.
    assert (len x `mod` 1024 = (len x - 512) `mod` 1024 + 512 - 1024 \/
            len x `mod` 1024 = (len x - 512) `mod` 1024 + 512).
    { pose proof (Z.mod_pos_bound (len x) 1024).
      pose proof (Z.div_mod (len x) 1024).
      pose proof (Z.div_mod (len x - 512) 1024).
      pose proof (Z.mod_pos_bound (len x - 512) 1024). lia. }
    lia. }
  split; [done |]. split; [done |].
  unfold strip_smc_header at 1.
  destruct (Z.eqb_spec (len (strip_smc_header x) `mod` 1024) 512); [lia | done].
Qed.

(** ** The splicer *)

Section splice.
Context (rpx_data rom_data : bytes) (offset original_size : Z).

Let padded : bytes :=
  rom_data ++ replicate (Z.to_nat (original_size - len rom_data)) 0xFF.

Lemma len_padded : len rom_data <= original_size -> len padded = original_size.
Proof. intros H. unfold padded. rewrite len_app, len_replicate. lia. Qed.

(** What [inject_rom] computes from an explicit [original_size], one
    equation per way out. *)
Lemma inject_rom_too_large :
  len rom_data > original_size ->
  inject_rom rpx_data rom_data offset (Some original_size)
    = Some (inl PayloadTooLarge).
Proof.
  intros H. unfold inject_rom. simpl.
  destruct (Z.gtb_spec (len rom_data) original_size); [done | lia].
Qed.

Lemma inject_rom_out_of_bounds :
  len rom_data <= original_size ->
  offset + original_size > len rpx_data ->
  inject_rom rpx_data rom_data offset (Some original_size)
    = Some (inl OffsetOutOfBounds).
Proof.
  intros H1 H2. unfold inject_rom. simpl.
  destruct (Z.gtb_spec (len rom_data) original_size); [lia |].
  destruct (Z.gtb_spec (offset + original_size) (len rpx_data)); [done | lia].
Qed.

Lemma inject_rom_accepted :
  len rom_data <= original_size ->
  offset + original_size <= len rpx_data ->
  inject_rom rpx_data rom_data offset (Some original_size)
    = Some (inr (py_slice_to rpx_data offset ++ padded
                 ++ py_slice_from rpx_data (offset + original_size))).
Proof.
  intros H1 H2. unfold inject_rom. simpl.
  destruct (Z.gtb_spec (len rom_data) original_size); [lia |].
  destruct (Z.gtb_spec (offset + original_size) (len rpx_data)); [lia |].
  do 3 f_equal. unfold padded.
  destruct (Z.ltb_spec (len rom_data) original_size); [done |].
  replace (original_size - len rom_data) with 0 by lia.
  simpl. by rewrite app_nil_r.
Qed.
End splice.

(** C3. With an explicit original size, [inject_rom] fails exactly when the
    payload is longer than the original size or the window ends past the
    container; otherwise it returns a buffer. A payload that is too long is
    always reported as [PayloadTooLarge], wherever the offset lies, and
    [OffsetOutOfBounds] is the failure of a payload that fits. *)
Theorem inject_rom_failure_cases (rpx_data rom_data : bytes)
    (offset original_size : Z) :
  let r := inject_rom rpx_data rom_data offset (Some original_size) in
  ((exists e, r = Some (inl e))
     <-> (len rom_data > original_size
          \/ offset + original_size > len rpx_data))
  /\ ((exists result, r = Some (inr result))
     <-> ~ (len rom_data > original_size
            \/ offset + original_size > len rpx_data))
  /\ (r = Some (inl PayloadTooLarge) <-> len rom_data > original_size)
  /\ (r = Some (inl OffsetOutOfBounds)
     <-> (len rom_data <= original_size
          /\ offset + original_size > len rpx_data)).
Proof.
  intros r. subst r.
  destruct (Z_gt_le_dec (len rom_data) original_size) as [Hbig | Hfit];
    [rewrite inject_rom_too_large by done |
     destruct (Z_gt_le_dec (offset + original_size) (len rpx_data))
       as [Hout | Hin];
     [rewrite inject_rom_out_of_bounds by done |
      rewrite inject_rom_accepted by done]].
  all: repeat split; intros;
    repeat match goal with
           | H : exists _, _ |- _ => destruct H
           | H : _ /\ _ |- _ => destruct H
           end;
    try done; try lia; eauto.
Qed.

Lemma length_len (data : bytes) : length data = Z.to_nat (len data).
Proof. unfold len. lia. Qed.



(** ** The default original size *)

Lemma double_until_spec (fuel : nat) (size rom_size : Z) :
  0 < size -> rom_size <= size * 2 ^ Z.of_nat fuel ->
  exists i, 0 <= i
    /\ double_until fuel size rom_size = Some (size * 2 ^ i)
    /\ rom_size <= size * 2 ^ i
    /\ (forall j, 0 <= j < i -> size * 2 ^ j < rom_size).
Proof.
  revert size. induction fuel as [| fuel IH]; intros size Hpos Hfuel; simpl.
  - destruct (Z.ltb_spec size rom_size); [simpl in Hfuel; lia |].
    exists 0. rewrite Z.mul_1_r. split_and!; [lia | done | done | lia].
  - destruct (Z.ltb_spec size rom_size) as [Hlt | Hge].
    + destruct (IH (size * 2)) as (i & Hi & Heq & Hle & Hmin); [lia | |].
      { rewrite Nat2Z.inj_succ, Z.pow_succ_r in Hfuel by lia. lia. }
      exists (Z.succ i).
      rewrite Z.pow_succ_r by lia.
      replace (size * (2 * 2 ^ i)) with (size * 2 * 2 ^ i) by lia.
      split_and!; [lia | done | done |].
      intros j Hj. destruct (decide (j = 0)) as [-> | Hne].
      * rewrite Z.mul_1_r. done.
      * specialize (Hmin (j - 1) ltac:(lia)).
        replace j with (Z.succ (j - 1)) by lia.
        rewrite Z.pow_succ_r by lia. lia.
    + exists 0. rewrite Z.mul_1_r. split_and!; [lia | done | done | lia].
Qed.

(** The loop of [inject_rom] ends within the fuel it is given. *)
Lemma default_size_spec (rom_data : bytes) :
  exists k, 0 <= k
    /\ double_until (length rom_data) 1 (len rom_data) = Some (2 ^ k)
    /\ len rom_data <= 2 ^ k
    /\ (forall j, 0 <= j -> len rom_data <= 2 ^ j -> 2 ^ k <= 2 ^ j).
Proof.
  destruct (double_until_spec (length rom_data) 1 (len rom_data))
    as (i & Hi & Heq & Hle & Hmin); [lia | |].
  { unfold len. pose proof (Z.pow_gt_lin_r 2 (Z.of_nat (length rom_data))). lia. }
  exists i. rewrite !Z.mul_1_l in *. split_and!; [done | done | done |].
  intros j Hj Hjle. destruct (Z.le_gt_cases i j) as [Hij | Hij].
  - apply Z.pow_le_mono_r; lia.
  - specialize (Hmin j ltac:(lia)). lia.
Qed.

Lemma inject_rom_returns (rpx_data rom_data : bytes) (offset : Z)
    (original_size : option Z) :
  is_Some (inject_rom rpx_data rom_data offset original_size).
Proof.
  unfold inject_rom. destruct original_size as [size |]; simpl.
  - repeat case_match; eauto.
  - destruct (default_size_spec rom_data) as (k & _ & -> & _). simpl.
    repeat case_match; eauto.
Qed.

(** C8. Called without an original size, [inject_rom] reserves the smallest
    power of two that is at least the payload's length, and goes on as if
    called with it; a payload whose length is a power of two is reserved
    exactly its length and is spliced in as it is, with no padding byte. *)
Theorem inject_rom_default_size (rpx_data rom_data : bytes) (offset : Z) :
  exists k, 0 <= k
    /\ len rom_data <= 2 ^ k
    /\ (forall j, 0 <= j -> len rom_data <= 2 ^ j -> 2 ^ k <= 2 ^ j)
    /\ inject_rom rpx_data rom_data offset None
       = inject_rom rpx_data rom_data offset (Some (2 ^ k))
    /\ ((exists j, 0 <= j /\ len rom_data = 2 ^ j) ->
        2 ^ k = len rom_data
        /\ inject_rom rpx_data rom_data offset None
           = Some (if decide (offset + len rom_data > len rpx_data)
                   then inl OffsetOutOfBounds
                   else inr (py_slice_to rpx_data offset ++ rom_data
                             ++ py_slice_from rpx_data (offset + len rom_data)))).
Proof.
  destruct (default_size_spec rom_data) as (k & Hk & Heq & Hle & Hmin).
  exists k. split_and!; [done | done | done | |].
  - unfold inject_rom. by rewrite Heq.
  - intros (j & Hj & Hpow).
    assert (Hsize : 2 ^ k = len rom_data).
    { specialize (Hmin j Hj ltac:(lia)). lia. }
    split; [done |].
    unfold inject_rom. rewrite Heq. simpl. rewrite Hsize.
    destruct (Z.gtb_spec (len rom_data) (len rom_data)); [lia |].
    destruct (Z.ltb_spec (len rom_data) (len rom_data)); [lia |].
    case_decide; destruct (Z.gtb_spec (offset + len rom_data) (len rpx_data));
      done || lia.
Qed.

(** ** Calls over the object store *)

Section returns.
Context {A B : Type}.
Implicit Types (h : gmap nat bytes).

Lemma returns_ret (a : A) h (P : A -> gmap nat bytes -> Prop) :
  P a h -> returns (st_ret a) h P.
Proof. intros HP. by exists a, h. Qed.

Lemma returns_bind (m : store A) (k : A -> store B) h
    (P : B -> gmap nat bytes -> Prop) :
  returns m h (fun a h1 => returns (k a) h1 P) ->
  returns (st_bind m k) h P.
Proof.
  intros (a & h1 & Hm & Hsub1 & b & h2 & Hk & Hsub2 & HP).
  exists b, h2. unfold st_bind. rewrite Hm. split_and!; [done | | done].
  by transitivity h1.
Qed.

Lemma returns_lift (o : option A) (a : A) h (P : A -> gmap nat bytes -> Prop) :
  o = Some a -> P a h -> returns (st_lift o) h P.
Proof. intros -> HP. by exists a, h. Qed.
End returns.

Section objects.
Implicit Types (h : gmap nat bytes).

Lemma returns_new (content : bytes) h (P : nat -> gmap nat bytes -> Prop) :
  (forall r, h !! r = None -> P r (<[r := content]> h)) ->
  returns (st_new content) h P.
Proof.
  intros HP.
  assert (Hfresh : h !! fresh (dom h) = None).
  { apply not_elem_of_dom, is_fresh. }
  exists (fresh (dom h)), (<[fresh (dom h) := content]> h).
  split_and!; [done | by apply insert_subseteq | by apply HP].
Qed.

Lemma returns_read (r : nat) (content : bytes) h
    (P : bytes -> gmap nat bytes -> Prop) :
  h !! r = Some content -> P content h -> returns (st_read r) h P.
Proof. intros Hr HP. exists content, h. unfold st_read. by rewrite Hr. Qed.

Lemma returns_len (x : nat) (a : bytes) h (P : Z -> gmap nat bytes -> Prop) :
  h !! x = Some a -> P (len a) h -> returns (obj_len x) h P.
Proof.
  intros Hx HP. apply returns_bind, (returns_read _ a); [done |].
  by apply returns_ret.
Qed.

Lemma returns_add (x y : nat) (a b : bytes) h
    (P : nat -> gmap nat bytes -> Prop) :
  h !! x = Some a -> h !! y = Some b ->
  (forall r, h !! r = None -> P r (<[r := a ++ b]> h)) ->
  returns (obj_add x y) h P.
Proof.
  intros Hx Hy HP.
  apply returns_bind, (returns_read _ a); [done |].
  apply returns_bind, (returns_read _ b); [done |].
  by apply returns_new.
Qed.

Lemma returns_slice_to (x : nat) (a : bytes) (j : Z) h
    (P : nat -> gmap nat bytes -> Prop) :
  h !! x = Some a ->
  (forall r, h !! r = None -> P r (<[r := py_slice_to a j]> h)) ->
  returns (obj_slice_to x j) h P.
Proof.
  intros Hx HP. apply returns_bind, (returns_read _ a); [done |].
  by apply returns_new.
Qed.

Lemma returns_slice_from (x : nat) (a : bytes) (i : Z) h
    (P : nat -> gmap nat bytes -> Prop) :
  h !! x = Some a ->
  (forall r, h !! r = None -> P r (<[r := py_slice_from a i]> h)) ->
  returns (obj_slice_from x i) h P.
Proof.
  intros Hx HP. apply returns_bind, (returns_read _ a); [done |].
  by apply returns_new.
Qed.

(** An object of the store is still there after a new one is made. *)
Lemma lookup_insert_new h (r x : nat) (a content : bytes) :
  h !! r = None -> h !! x = Some a -> <[r := content]> h !! x = Some a.
Proof. intros Hr Hx. rewrite lookup_insert_ne; [done | congruence]. Qed.
End objects.

Ltac fresh_facts :=
  repeat match goal with
         | H : <[_ := _]> _ !! _ = None |- _ =>
             apply lookup_insert_None in H as [H ?]
         end.

Ltac solve_lookup :=
  fresh_facts;
  repeat first [ rewrite lookup_insert_eq
               | rewrite lookup_insert_ne by congruence ];
  done.

(** [inject_rom_obj] puts the buffer that [inject_rom] computes in an
    object of its own. *)
Lemma inject_rom_obj_sized (h : gmap nat bytes) (rpx_ref rom_ref : nat)
    (rpx_data rom_data : bytes) (offset size : Z) :
  h !! rpx_ref = Some rpx_data -> h !! rom_ref = Some rom_data ->
  returns (inject_rom_obj rpx_ref rom_ref offset (Some size)) h
    (fun res h' =>
       match inject_rom rpx_data rom_data offset (Some size) with
       | Some (inr out) =>
           exists r, res = Some r /\ h !! r = None /\ h' !! r = Some out
       | Some (inl _) => res = None
       | None => False
       end).
Proof.
  intros Hrpx Hrom. unfold inject_rom_obj.
  apply returns_bind, (returns_len _ rom_data); [done |].
  apply returns_bind, returns_ret.
  destruct (Z.gtb_spec (len rom_data) size) as [Hbig | Hfit].
  { apply returns_ret. by rewrite inject_rom_too_large by lia. }
  apply returns_bind.
  destruct (Z_gt_le_dec (offset + size) (len rpx_data)) as [Hout | Hin].
  - rewrite inject_rom_out_of_bounds by lia.
    destruct (Z.ltb_spec (len rom_data) size).
    + apply returns_bind, returns_new. intros r1 Hr1.
      eapply returns_add; [solve_lookup | solve_lookup |]. intros r2 Hr2.
      apply returns_bind, (returns_len _ rpx_data); [solve_lookup |].
      destruct (Z.gtb_spec (offset + size) (len rpx_data)); [| lia].
      by apply returns_ret.
    + apply returns_ret.
      apply returns_bind, (returns_len _ rpx_data); [solve_lookup |].
      destruct (Z.gtb_spec (offset + size) (len rpx_data)); [| lia].
      by apply returns_ret.
  - rewrite inject_rom_accepted by lia.
    destruct (Z.ltb_spec (len rom_data) size).
    + apply returns_bind, returns_new. intros r1 Hr1.
      eapply returns_add; [solve_lookup | solve_lookup |]. intros r2 Hr2.
      apply returns_bind, (returns_len _ rpx_data); [solve_lookup |].
      destruct (Z.gtb_spec (offset + size) (len rpx_data)); [lia |].
      apply returns_bind.
      eapply returns_slice_to; [solve_lookup |]. intros r3 Hr3.
      apply returns_bind.
      eapply returns_add; [solve_lookup | solve_lookup |]. intros r4 Hr4.
      apply returns_bind.
      eapply returns_slice_from; [solve_lookup |]. intros r5 Hr5.
      apply returns_bind.
      eapply returns_add; [solve_lookup | solve_lookup |]. intros r6 Hr6.
      apply returns_ret. exists r6. fresh_facts.
      split_and!; [done | done |].
      rewrite lookup_insert_eq. by rewrite <- app_assoc.
    + apply returns_ret.
      apply returns_bind, (returns_len _ rpx_data); [solve_lookup |].
      destruct (Z.gtb_spec (offset + size) (len rpx_data)); [lia |].
      apply returns_bind.
      eapply returns_slice_to; [solve_lookup |]. intros r3 Hr3.
      apply returns_bind.
      eapply returns_add; [solve_lookup | solve_lookup |]. intros r4 Hr4.
      apply returns_bind.
      eapply returns_slice_from; [solve_lookup |]. intros r5 Hr5.
      apply returns_bind.
      eapply returns_add; [solve_lookup | solve_lookup |]. intros r6 Hr6.
      apply returns_ret. exists r6. fresh_facts.
      split_and!; [done | done |].
      rewrite lookup_insert_eq.
      replace (size - len rom_data) with 0 by lia. simpl.
      by rewrite app_nil_r, <- app_assoc.
Qed.

Lemma inject_rom_obj_default (h : gmap nat bytes) (rpx_ref rom_ref : nat)
    (rom_data : bytes) (offset size : Z) :
  h !! rom_ref = Some rom_data ->
  double_until (length rom_data) 1 (len rom_data) = Some size ->
  inject_rom_obj rpx_ref rom_ref offset None h
    = inject_rom_obj rpx_ref rom_ref offset (Some size) h.
Proof.
  intros Hrom Hsize.
  unfold inject_rom_obj, st_bind at 1 3, obj_len, st_bind, st_read.
  rewrite Hrom. unfold st_ret at 1 2.
  unfold st_lift, len at 1. rewrite Nat2Z.id, Hsize. done.
Qed.

(** C9. [inject_rom] updates no object that it is given: whatever the
    offset and the original size, every object of the store, the container
    among them, holds after the call the bytes it held before; on success
    the result is an object that did not exist before the call, and on
    either failure no object is returned. *)
Theorem inject_rom_keeps_container (h : gmap nat bytes) (rpx_ref rom_ref : nat)
    (rpx_data rom_data : bytes) (offset : Z) (original_size : option Z) :
  h !! rpx_ref = Some rpx_data -> h !! rom_ref = Some rom_data ->
  exists res h',
    inject_rom_obj rpx_ref rom_ref offset original_size h = Some (res, h')
    /\ h' !! rpx_ref = Some rpx_data
    /\ (forall x content, h !! x = Some content -> h' !! x = Some content)
    /\ match inject_rom rpx_data rom_data offset original_size with
       | Some (inr out) =>
           exists r, res = Some r /\ h !! r = None /\ h' !! r = Some out
       | Some (inl _) => res = None
       | None => False
       end.
Proof.
  intros Hrpx Hrom.
  assert (exists size,
    inject_rom_obj rpx_ref rom_ref offset original_size h
      = inject_rom_obj rpx_ref rom_ref offset (Some size) h
    /\ inject_rom rpx_data rom_data offset original_size
      = inject_rom rpx_data rom_data offset (Some size)) as (size & -> & ->).
  { destruct original_size as [size |]; [by exists size |].
    destruct (default_size_spec rom_data) as (k & _ & Hk & _).
    exists (2 ^ k). split.
    - by apply (inject_rom_obj_default _ _ _ rom_data).
    - unfold inject_rom. by rewrite Hk. }
  destruct (inject_rom_obj_sized h rpx_ref rom_ref rpx_data rom_data offset size)
    as (res & h' & Hrun & Hsub & Hres); [done | done |].
  exists res, h'. split_and!; [done | | | done].
  - by apply (lookup_weaken h h').
  - intros x content Hx. by apply (lookup_weaken h h').
Qed.

(** The container at address 7 and the payload at address 3. *)
Lemma inject_rom_keeps_container_witness :
  let h : gmap nat bytes :=
    <[7%nat := [1; 2; 3; 4; 5; 6; 7; 8; 9; 10]]> (<[3%nat := [20; 21; 22]]> ∅) in
  exists res h',
    inject_rom_obj 7 3 2 (Some 5) h = Some (res, h')
    /\ h' !! 7%nat = Some [1; 2; 3; 4; 5; 6; 7; 8; 9; 10].
Proof.
  intros h.
  destruct (inject_rom_keeps_container h 7 3 [1; 2; 3; 4; 5; 6; 7; 8; 9; 10]
              [20; 21; 22] 2 (Some 5) eq_refl eq_refl)
    as (res & h' & Hrun & Hkeep & _).
  by exists res, h'.
Defined.

(** ** The header codec *)

Lemma len_py_slice (data : bytes) (i j : Z) :
  0 <= i <= j -> j <= len data -> len (py_slice data i j) = j - i.
Proof.
  intros Hij Hj. rewrite py_slice_take_drop by done.
  unfold len in *. rewrite length_take, length_drop. lia.
Qed.

Lemma py_slice_py_slice (data : bytes) (o n a b : Z) :
  0 <= o -> o + n <= len data -> 0 <= a <= b -> b <= n ->
  py_slice (py_slice data o (o + n)) a b = py_slice data (o + a) (o + b).
Proof.
  intros Ho Hn Hab Hb.
  rewrite (py_slice_take_drop (py_slice _ _ _))
    by (rewrite ?len_py_slice; lia).
  rewrite !py_slice_take_drop by lia.
  rewrite (take_drop_commute data), drop_drop, !take_drop_commute, take_take.
  f_equal; [lia | f_equal; lia].
Qed.

Lemma py_slice_two (data : bytes) (k x y : Z) :
  0 <= k ->
  data !! Z.to_nat k = Some x -> data !! S (Z.to_nat k) = Some y ->
  py_slice data k (k + 2) = [x; y].
Proof.
  intros Hk Hx Hy.
  pose proof (lookup_lt_Some _ _ _ Hy) as Hlt.
  rewrite py_slice_take_drop by (unfold len; lia).
  replace (Z.to_nat (k + 2 - k)) with 2%nat by lia.
  rewrite (drop_S _ x) by done. rewrite (drop_S _ y) by done. done.
Qed.

Lemma list_length_two (bs : bytes) :
  length bs = 2%nat -> exists b0 b1, bs = [b0; b1].
Proof. destruct bs as [| b0 [| b1 [| ? ?]]]; naive_solver. Qed.

(** A 16-bit value is its two little-endian bytes. *)
Lemma u16_bytes (value : Z) :
  0 <= value <= 0xFFFF ->
  Z.land value 0xFF + 256 * Z.land (Z.shiftr value 8) 0xFF = value.
Proof.
  intros Hv. change 0xFF with (Z.ones 8).
  rewrite !Z.land_ones, Z.shiftr_div_pow2 by lia.
  change (2 ^ 8) with 256.
  assert (0 <= value `div` 256 < 256).
  { split; [apply Z.div_pos; lia | apply Z.div_lt_upper_bound; lia]. }
  rewrite (Z.mod_small (value `div` 256)) by lia.
  pose proof (Z.div_mod value 256). lia.
Qed.

Lemma u16_land (x : Z) : 0 <= Z.land x 0xFFFF <= 0xFFFF.
Proof.
  change 0xFFFF with (Z.ones 16). rewrite Z.land_ones by lia.
  change (2 ^ 16) with 65536. change (Z.ones 16) with 65535.
  pose proof (Z.mod_pos_bound x 65536). lia.
Qed.

(** The checksum algebra: a 16-bit value and its XOR with 0xFFFF add up to
    0xFFFF. *)
Lemma u16_complement (checksum : Z) :
  0 <= checksum <= 0xFFFF ->
  checksum + Z.lxor checksum 0xFFFF = 0xFFFF.
Proof.
  intros Hc. rewrite Z.add_nocarry_lxor.
  - by rewrite <- Z.lxor_assoc, Z.lxor_nilpotent, Z.lxor_0_l.
  - apply Z.bits_inj'. intros n Hn.
    rewrite Z.land_spec, Z.lxor_spec, Z.bits_0.
    destruct (Z.lt_ge_cases n 16) as [Hlow | Hhigh].
    + change 0xFFFF with (Z.ones 16). rewrite Z.ones_spec_low by lia.
      by destruct (Z.testbit checksum n).
    + rewrite <- (Z.mod_small checksum (2 ^ 16)) by lia.
      by rewrite Z.mod_pow2_bits_high by lia.
Qed.

Lemma pack_into_H_spec (data : bytes) (offset value : Z) :
  0 <= offset -> offset + 2 <= len data -> 0 <= value <= 0xFFFF ->
  exists data',
    pack_into_H data offset value = Some data'
    /\ len data' = len data
    /\ unpack_H (py_slice data' offset (offset + 2)) = Some value
    /\ (forall i, (i < Z.to_nat offset \/ Z.to_nat offset + 1 < i)%nat ->
          data' !! i = data !! i).
Proof.
  intros Hoff Hfit Hv. unfold pack_into_H.
  destruct (Z.ltb_spec offset 0); [lia |]. simpl.
  destruct (Z.ltb_spec (len data - offset) 2); [lia |].
  destruct (Z.leb_spec 0 value); [| lia].
  destruct (Z.leb_spec value 0xFFFF); [| lia]. simpl.
  eexists. split; [done |].
  replace (Z.to_nat (offset + 1)) with (S (Z.to_nat offset)) by lia.
  split_and!.
  - unfold len. by rewrite !length_insert.
  - erewrite py_slice_two; [| lia | |].
    + simpl. by rewrite u16_bytes.
    + rewrite list_lookup_insert_ne by lia.
      apply list_lookup_insert_eq. unfold len in *. lia.
    + apply list_lookup_insert_eq. rewrite length_insert. unfold len in *. lia.
  - intros i Hi. by rewrite !list_lookup_insert_ne by lia.
Qed.

(** Two bytes read where none was written are the bytes that were there. *)
Lemma py_slice_two_unchanged (data data' : bytes) (k : Z) :
  0 <= k -> k + 2 <= len data -> len data' = len data ->
  data' !! Z.to_nat k = data !! Z.to_nat k ->
  data' !! S (Z.to_nat k) = data !! S (Z.to_nat k) ->
  py_slice data' k (k + 2) = py_slice data k (k + 2).
Proof.
  intros Hk Hfit Hlen H0 H1.
  destruct (lookup_lt_is_Some_2 data (Z.to_nat k)) as [x Hx];
    [unfold len in *; lia |].
  destruct (lookup_lt_is_Some_2 data (S (Z.to_nat k))) as [y Hy];
    [unfold len in *; lia |].
  rewrite (py_slice_two data k x y), (py_slice_two data' k x y);
    done || congruence.
Qed.

Lemma unpack_H_two (data : bytes) (k : Z) :
  0 <= k -> k + 2 <= len data ->
  is_Some (unpack_H (py_slice data k (k + 2))).
Proof.
  intros Hk Hfit.
  destruct (list_length_two (py_slice data k (k + 2))) as (b0 & b1 & ->).
  - pose proof (len_py_slice data k (k + 2)) as Hl. unfold len in *. lia.
  - by eexists.
Qed.

(** With the window in range, the verdict is decided by the two 16-bit
    fields and the title, read straight from the buffer. *)
Lemma validate_snes_header_verdict_in_range (data : bytes) (offset : Z) :
  0 <= offset -> offset + 0x20 <= len data ->
  exists checksum complement,
    unpack_H (py_slice data (offset + 0x1E) (offset + 0x20)) = Some checksum
    /\ unpack_H (py_slice data (offset + 0x1C) (offset + 0x1E)) = Some complement
    /\ validate_snes_header_verdict data offset
       = Some (if Z.land (checksum + complement) 0xFFFF =? 0xFFFF
               then checksum_match
               else if count_printable (py_slice data offset (offset + 21)) >=? 15
                    then title_printable
                    else no_match).
Proof.
  intros Hoff Hfit.
  destruct (unpack_H_two data (offset + 0x1E)) as [checksum Hc]; [lia | lia |].
  destruct (unpack_H_two data (offset + 0x1C)) as [complement Hm]; [lia | lia |].
  replace (offset + 30 + 2) with (offset + 0x20) in Hc by lia.
  replace (offset + 28 + 2) with (offset + 0x1E) in Hm by lia.
  exists checksum, complement. split_and!; [done | done |].
  unfold validate_snes_header_verdict.
  destruct (Z.gtb_spec (offset + 0x20) (len data)); [lia |].
  unfold SNES_CHECKSUM_OFFSET, SNES_CHECKSUM_COMP_OFFSET, SNES_TITLE_OFFSET.
  rewrite !py_slice_py_slice by lia.
  replace (offset + (30 + 2)) with (offset + 0x20) by lia.
  replace (offset + (28 + 2)) with (offset + 0x1E) by lia.
  rewrite Hc, Hm. simpl.
  replace (offset + 0) with offset by lia.
  replace (offset + (0 + 21)) with (offset + 21) by lia.
  by repeat case_match.
Qed.

(** At a 0-based offset [validate_snes_header] raises nothing. *)
Lemma validate_snes_header_returns (data : bytes) (offset : Z) :
  0 <= offset -> is_Some (validate_snes_header data offset).
Proof.
  intros Hoff. unfold validate_snes_header.
  destruct (Z.le_gt_cases (offset + 0x20) (len data)) as [Hin | Hout].
  - destruct (validate_snes_header_verdict_in_range data offset)
      as (? & ? & _ & _ & ->); [done | done |]. by eexists.
  - unfold validate_snes_header_verdict.
    destruct (Z.gtb_spec (offset + 0x20) (len data)); [by eexists | lia].
Qed.

(** C2. When the 32-byte header window of the layout lies within the
    buffer, [update_snes_header_checksum] succeeds, and in the buffer it
    leaves the checksum field and the complement field, read back as
    little-endian 16-bit numbers, are the 16-bit sum of the bytes from the
    payload offset on and its XOR with 0xFFFF; they add up to 0xFFFF modulo
    65536, so that [validate_snes_header] at the header position returns
    true through the checksum test. *)
Theorem update_checksum_then_validate (data : bytes) (offset : Z) (rt : rom_type) :
  let header_offset :=
    offset + match rt with
             | lorom => SNES_LOROM_HEADER
             | hirom => SNES_HIROM_HEADER
             end in
  0 <= header_offset -> header_offset + 0x20 <= len data ->
  exists data' checksum complement,
    update_snes_header_checksum data offset rt = Some data'
    /\ len data' = len data
    /\ unpack_H (py_slice data' (header_offset + 0x1E) (header_offset + 0x20))
       = Some checksum
    /\ unpack_H (py_slice data' (header_offset + 0x1C) (header_offset + 0x1E))
       = Some complement
    /\ checksum = Z.land (sum (py_slice_from data offset)) 0xFFFF
    /\ complement = Z.lxor checksum 0xFFFF
    /\ (checksum + complement) `mod` 65536 = 0xFFFF
    /\ validate_snes_header_verdict data' header_offset = Some checksum_match
    /\ validate_snes_header data' header_offset = Some true.
Proof.
  intros header_offset Hoff Hfit.
  assert (Hho : header_offset_of offset rt = header_offset) by by destruct rt.
  set (checksum := Z.land (sum (py_slice_from data offset)) 0xFFFF).
  set (complement := Z.lxor checksum 0xFFFF).
  pose proof (u16_land (sum (py_slice_from data offset))) as Hc. fold checksum in Hc.
  pose proof (u16_complement checksum Hc) as Hsum. fold complement in Hsum.
  destruct (pack_into_H_spec data (header_offset + 0x1C) complement)
    as (data1 & Hp1 & Hl1 & Hr1 & Hk1); [lia | lia | lia |].
  destruct (pack_into_H_spec data1 (header_offset + 0x1E) checksum)
    as (data2 & Hp2 & Hl2 & Hr2 & Hk2); [lia | lia | lia |].
  replace (header_offset + 30 + 2) with (header_offset + 0x20) in Hr2 by lia.
  replace (header_offset + 28 + 2) with (header_offset + 0x1E) in Hr1 by lia.
  assert (Hr1' : unpack_H (py_slice data2 (header_offset + 0x1C) (header_offset + 0x1E))
                 = Some complement).
  { rewrite <- Hr1.
    replace (header_offset + 0x1E) with (header_offset + 0x1C + 2) by lia.
    f_equal. apply py_slice_two_unchanged; [lia | lia | done | |];
      apply Hk2; lia. }
  exists data2, checksum, complement.
  assert (Hverdict : validate_snes_header_verdict data2 header_offset
                     = Some checksum_match).
  { destruct (validate_snes_header_verdict_in_range data2 header_offset)
      as (c & m & Hc' & Hm' & ->); [lia | lia |].
    rewrite Hr2 in Hc'. rewrite Hr1' in Hm'. simplify_eq.
    rewrite Hsum. done. }
  split_and!; try done.
  - unfold update_snes_header_checksum. rewrite Hho.
    fold checksum. fold complement.
    unfold SNES_CHECKSUM_COMP_OFFSET, SNES_CHECKSUM_OFFSET.
    rewrite Hp1. simpl. done.
  - lia.
  - by rewrite Hsum.
  - unfold validate_snes_header. by rewrite Hverdict.
Qed.

(** A 32 KB buffer of zeros, repaired as a LoROM payload at offset 0. *)
Lemma update_checksum_then_validate_witness :
  let data := replicate (Z.to_nat 0x8000) 0 in
  (0 <= 0 + SNES_LOROM_HEADER /\ 0 + SNES_LOROM_HEADER + 0x20 <= len data)
  /\ exists data', update_snes_header_checksum data 0 lorom = Some data'
       /\ validate_snes_header_verdict data' (0 + SNES_LOROM_HEADER)
          = Some checksum_match.
Proof.
  intros data.
  assert (H1 : 0 <= 0 + SNES_LOROM_HEADER) by (vm_compute; discriminate).
  assert (H2 : 0 + SNES_LOROM_HEADER + 0x20 <= len data) by (vm_compute; discriminate).
  split; [exact (conj H1 H2) |].
  destruct (update_checksum_then_validate data 0 lorom H1 H2)
    as (data' & ? & ? & Hrun & _ & _ & _ & _ & _ & _ & Hv & _).
  exists data'. exact (conj Hrun Hv).
Defined.

(** ** Layout detection *)

(** C5, as stated, fails: a buffer of exactly 0x7FE0 bytes whose last 32
    bytes are a valid header is not classified as LoROM, because
    [detect_snes_rom_type] looks at 0x7FC0 only in a buffer longer than
    0x7FE0 bytes. *)
Lemma detect_snes_rom_type_counterexample :
  let rom_data := replicate (Z.to_nat 0x7FE0) 0 in
  validate_snes_header rom_data 0x7FC0 = Some true
  /\ detect_snes_rom_type rom_data = Some None.
Proof. vm_compute. done. Qed.

(** C5, amended. [detect_snes_rom_type] returns LoROM whenever the buffer is
    longer than 0x7FE0 bytes and [validate_snes_header] accepts offset
    0x7FC0; otherwise it returns HiROM whenever the buffer is longer than
    0xFFE0 bytes and [validate_snes_header] accepts offset 0xFFC0; otherwise
    it returns [None]. *)
Theorem detect_snes_rom_type_guarded (rom_data : bytes) :
  let lo := len rom_data > 0x7FE0
            /\ validate_snes_header rom_data 0x7FC0 = Some true in
  let hi := len rom_data > 0xFFE0
            /\ validate_snes_header rom_data 0xFFC0 = Some true in
  (lo -> detect_snes_rom_type rom_data = Some (Some lorom))
  /\ (~ lo -> hi -> detect_snes_rom_type rom_data = Some (Some hirom))
  /\ (~ lo -> ~ hi -> detect_snes_rom_type rom_data = Some None).
Proof.
  intros lo hi. subst lo hi. unfold detect_snes_rom_type.
  change (SNES_LOROM_HEADER + 0x20) with 0x7FE0.
  change (SNES_HIROM_HEADER + 0x20) with 0xFFE0.
  change SNES_LOROM_HEADER with 0x7FC0. change SNES_HIROM_HEADER with 0xFFC0.
  destruct (validate_snes_header_returns rom_data 0x7FC0) as [vlo ->]; [lia |].
  destruct (validate_snes_header_returns rom_data 0xFFC0) as [vhi ->]; [lia |].
  destruct (Z.gtb_spec (len rom_data) 0x7FE0), (Z.gtb_spec (len rom_data) 0xFFE0),
    vlo, vhi; simpl; split_and!; intros; try done;
    try (destruct_and?; done || lia);
    match goal with
    | H : ~ _ |- _ => solve [exfalso; apply H; split; lia || done]
    end.
Qed.

(** ** Searching for a byte string *)

Lemma starts_with_prefix (data sub : bytes) :
  starts_with data sub = true <-> take (length sub) data = sub.
Proof.
  revert data. induction sub as [| s sub IH]; intros [| d data]; simpl;
    try done.
  rewrite andb_true_iff, Z.eqb_eq, IH. split.
  - intros [-> Hpre]. by rewrite Hpre.
  - intros [= -> Hpre]. done.
Qed.

Lemma occurs_at_starts_with (data sub : bytes) (k : nat) :
  (k <= length data)%nat ->
  starts_with (drop k data) sub = true <-> occurs_at data sub (Z.of_nat k).
Proof.
  intros Hk. rewrite starts_with_prefix. unfold occurs_at. split.
  - intros Hpre.
    assert (Hlen : (length sub <= length data - k)%nat).
    { rewrite <- Hpre at 1. rewrite length_take, length_drop. lia. }
    split_and!; [lia | unfold len; lia |].
    rewrite py_slice_take_drop by (unfold len; lia).
    rewrite Nat2Z.id.
    replace (Z.to_nat (Z.of_nat k + len sub - Z.of_nat k)) with (length sub)
      by (unfold len; lia).
    done.
  - intros (_ & Hfit & Hocc).
    rewrite py_slice_take_drop in Hocc by (unfold len in *; lia).
    rewrite Nat2Z.id in Hocc.
    replace (Z.to_nat (Z.of_nat k + len sub - Z.of_nat k)) with (length sub)
      in Hocc by (unfold len; lia).
    done.
Qed.

Lemma find_from_spec (data sub : bytes) (i : Z) :
  (find_from data sub i = -1
   /\ forall k, (k <= length data)%nat -> starts_with (drop k data) sub = false)
  \/ (exists k, find_from data sub i = i + Z.of_nat k
      /\ (k <= length data)%nat
      /\ starts_with (drop k data) sub = true
      /\ forall j, (j < k)%nat -> starts_with (drop j data) sub = false).
Proof.
  revert i. induction data as [| d data IH]; intros i; cbn [find_from].
  - destruct (starts_with [] sub) eqn:Hs.
    + right. exists 0%nat. split_and!; [lia | done | done | lia].
    + left. split; [done |]. intros k Hk. by rewrite drop_nil.
  - destruct (starts_with (d :: data) sub) eqn:Hs.
    + right. exists 0%nat. split_and!; [lia | lia | done | lia].
    + destruct (IH (i + 1)) as [[Hnone Hall] | (k & Hk & Hle & Hat & Hbefore)].
      * left. split; [done |]. intros [| k] Hk; [done |].
        change (drop (S k) (d :: data)) with (drop k data).
        apply Hall. cbn [length] in Hk. lia.
      * right. exists (S k). split_and!; [lia | cbn [length]; lia | done |].
        intros [| j] Hj; [done |].
        change (drop (S j) (d :: data)) with (drop j data).
        apply Hbefore. lia.
Qed.

(** [find] returns the lowest index of an occurrence, or -1 when there is
    none. *)
Lemma find_spec (data sub : bytes) :
  (find data sub = -1 /\ forall i, ~ occurs_at data sub i)
  \/ (occurs_at data sub (find data sub)
      /\ forall i, occurs_at data sub i -> find data sub <= i).
Proof.
  unfold find.
  destruct (find_from_spec data sub 0)
    as [[Hnone Hall] | (k & -> & Hle & Hat & Hbefore)].
  - left. split; [done |]. intros i Hocc.
    assert (Hi : (Z.to_nat i <= length data)%nat).
    { destruct Hocc as (? & ? & _). pose proof (len_nonneg sub).
      unfold len in *. lia. }
    specialize (Hall _ Hi).
    apply (occurs_at_starts_with data sub) in Hi.
    replace (Z.of_nat (Z.to_nat i)) with i in Hi by (destruct Hocc; lia).
    apply Hi in Hocc. congruence.
  - right. rewrite Z.add_0_l. split; [by apply occurs_at_starts_with |].
    intros i Hocc. destruct (Z.le_gt_cases (Z.of_nat k) i) as [| Hlt]; [done |].
    assert (Hj : (Z.to_nat i < k)%nat) by (destruct Hocc; lia).
    specialize (Hbefore _ Hj).
    assert (Hi : (Z.to_nat i <= length data)%nat) by lia.
    apply (occurs_at_starts_with data sub) in Hi.
    replace (Z.of_nat (Z.to_nat i)) with i in Hi by (destruct Hocc; lia).
    apply Hi in Hocc. congruence.
Qed.

Lemma find_lower_bound (data sub : bytes) : -1 <= find data sub.
Proof.
  destruct (find_spec data sub) as [[-> _] | [(? & _) _]]; lia.
Qed.

(** ** The locator on NES input *)

Lemma probe_deltas_nes (rpx_data rom_data : bytes) (wup_offset : Z)
    (deltas : list Z) :
  probe_deltas rpx_data rom_data nes wup_offset deltas = Some None.
Proof.
  induction deltas as [| delta deltas IH]; simpl; [done |].
  by destruct (_ <=? _).
Qed.

(** C10. For NES the loop of the signature-anchored probe returns no
    candidate and the structural scan is not run, so [find_rom_in_rpx]
    returns what the content match finds: the lowest offset at which the
    first 1024 bytes of the ROM (all of it, when it is shorter) occur byte
    for byte in the container, or -1 when they occur nowhere. *)
Theorem find_rom_in_rpx_nes (rpx_data rom_data : bytes) :
  let search_bytes := take 1024 rom_data in
  (forall wup_offset deltas,
     probe_deltas rpx_data rom_data nes wup_offset deltas = Some None)
  /\ find_rom_in_rpx rpx_data rom_data nes = Some (find rpx_data search_bytes)
  /\ ((find rpx_data search_bytes = -1
       /\ forall i, ~ occurs_at rpx_data search_bytes i)
      \/ (occurs_at rpx_data search_bytes (find rpx_data search_bytes)
          /\ forall i, occurs_at rpx_data search_bytes i ->
               find rpx_data search_bytes <= i)).
Proof.
  intros search_bytes. split_and!.
  - intros. apply probe_deltas_nes.
  - unfold find_rom_in_rpx. rewrite probe_deltas_nes.
    rewrite py_slice_to_take by lia.
    change (take (Z.to_nat 1024) rom_data) with search_bytes.
    destruct (negb (find_wup_header rpx_data =? -1)); cbn [mbind option_bind];
      destruct (find rpx_data search_bytes =? -1) eqn:Hn; cbn [negb];
      try done; apply Z.eqb_eq in Hn; by rewrite Hn.
  - apply find_spec.
Qed.

(** ** The priority of the signature-anchored probe *)

Lemma detect_snes_rom_type_returns (rom_data : bytes) :
  is_Some (detect_snes_rom_type rom_data).
Proof.
  unfold detect_snes_rom_type.
  destruct (validate_snes_header_returns rom_data SNES_LOROM_HEADER)
    as [vlo ->]; [done |].
  destruct (validate_snes_header_returns rom_data SNES_HIROM_HEADER)
    as [vhi ->]; [done |].
  destruct (_ >? _), (_ >? _), vlo, vhi; by eexists.
Qed.

(** A candidate that the probe does not accept sends the loop on to the
    next delta; one that it accepts ends the loop. *)
Lemma probe_deltas_skip (rpx_data rom_data : bytes) (s delta : Z)
    (deltas : list Z) :
  ~ probe_accepts rpx_data rom_data (s + delta) ->
  probe_deltas rpx_data rom_data snes s (delta :: deltas)
    = probe_deltas rpx_data rom_data snes s deltas.
Proof.
  intros Hno. cbn [probe_deltas].
  destruct (Z.leb_spec (s + delta + len rom_data) (len rpx_data)); [| done].
  destruct (detect_snes_rom_type_returns
              (py_slice rpx_data (s + delta) (s + delta + 0x10000)))
    as [[rt |] Hd]; rewrite Hd; [| done].
  exfalso. apply Hno. split; [done |]. by exists rt.
Qed.

Lemma probe_deltas_accept (rpx_data rom_data : bytes) (s delta : Z)
    (deltas : list Z) :
  probe_accepts rpx_data rom_data (s + delta) ->
  probe_deltas rpx_data rom_data snes s (delta :: deltas)
    = Some (Some (s + delta)).
Proof.
  intros [Hfit [rt Hd]]. cbn [probe_deltas].
  destruct (Z.leb_spec (s + delta + len rom_data) (len rpx_data)); [| lia].
  by rewrite Hd.
Qed.

Lemma probe_deltas_first (rpx_data rom_data : bytes) (s delta : Z)
    (before after : list Z) :
  probe_accepts rpx_data rom_data (s + delta) ->
  (forall d, d ∈ before -> ~ probe_accepts rpx_data rom_data (s + d)) ->
  probe_deltas rpx_data rom_data snes s (before ++ delta :: after)
    = Some (Some (s + delta)).
Proof.
  intros Hacc. induction before as [| d before IH]; intros Hbefore.
  - by apply probe_deltas_accept.
  - rewrite <- app_comm_cons, probe_deltas_skip.
    + apply IH. intros d' Hd'. apply Hbefore. by right.
    + apply Hbefore. by left.
Qed.

(** C4. Whenever the signature-anchored probe succeeds at an offset,
    [find_rom_in_rpx] returns that offset, whatever the later strategies
    would find: in particular an offset at which the content match would
    succeed is returned only if it is the probe's own. *)
Theorem find_rom_in_rpx_probe_first (rpx_data rom_data : bytes) (sys : system)
    (candidate : Z) :
  signature_probe_succeeds_at rpx_data rom_data sys candidate ->
  find_rom_in_rpx rpx_data rom_data sys = Some candidate
  /\ (forall m, occurs_at rpx_data (take 1024 rom_data) m -> m <> candidate ->
        find_rom_in_rpx rpx_data rom_data sys <> Some m).
Proof.
  intros (-> & Hfound & before & delta & after & Hlist & -> & Hacc & Hbefore).
  assert (Hrun : find_rom_in_rpx rpx_data rom_data snes
                 = Some (find rpx_data WUP_SIGNATURE + delta)).
  { unfold find_rom_in_rpx, find_wup_header.
    destruct (Z.eqb_spec (find rpx_data WUP_SIGNATURE) (-1)); [done |].
    cbn [negb]. rewrite Hlist.
    by rewrite (probe_deltas_first _ _ _ _ _ _ Hacc Hbefore). }
  split; [done |]. intros m _ Hne. rewrite Hrun. congruence.
Qed.

(** A container made of the marker and zeros: the probe succeeds at 0x20,
    where the title of the LoROM header is all NUL, and the 1024 zeros of
    the ROM first occur at offset 4. *)
Lemma find_rom_in_rpx_probe_first_witness :
  let rpx_data := WUP_SIGNATURE ++ replicate (Z.to_nat 0x8020) 0 in
  let rom_data := replicate (Z.to_nat 1024) 0 in
  find rpx_data (take 1024 rom_data) = 4
  /\ find_rom_in_rpx rpx_data rom_data snes = Some 0x20.
Proof.
  intros rpx_data rom_data.
  split; [by vm_compute |].
  apply (find_rom_in_rpx_probe_first rpx_data rom_data snes 0x20).
  split_and!; [done | by vm_compute |].
  exists [], 0x20, [0x30; 0x40; 0x100; 0x200].
  split_and!; [done | by vm_compute | | intros d Hd; by apply elem_of_nil in Hd].
  split; [by vm_compute | exists lorom; by vm_compute].
Defined.

(** ** The original size *)

(** The table holds the ladder from 32 KB to 4 MB and nothing else. *)
Lemma size_map_lookup (size_byte size : Z) :
  size_map !! size_byte = Some size <-> (size_byte, size) ∈ size_codes.
Proof.
  change size_map with (list_to_map size_codes : gmap Z Z).
  symmetry. apply elem_of_list_to_map.
  compute_done.
Qed.

(** C6, as stated, fails: in a 16-byte container that starts with the
    marker and holds the size code 0x40 at offset 0x0E, the marker is found
    and the code has a table entry, yet no size is returned, because the
    marker lies within 0x10 bytes of the container's end. *)
Lemma get_original_rom_size_counterexample :
  let rpx_data := WUP_SIGNATURE ++ replicate 10 0 ++ [0x40; 0] in
  find_wup_header rpx_data = 0
  /\ py_index rpx_data (0 + 0x0E) = Some 0x40
  /\ size_map !! 0x40 = Some 4194304
  /\ get_original_rom_size rpx_data (find_wup_header rpx_data) = Some None.
Proof. by vm_compute. Qed.

(** C6, amended. [get_original_rom_size] returns no size exactly when the
    marker was not found, or the marker lies within 0x10 bytes of the
    container's end, or the byte at the marker offset plus 0x0E has no entry
    in the size-code table; in every other case it returns the byte count
    that the table gives for that byte, a step of the ladder from 32 KB to
    4 MB (4194304 for the byte 0x40). A marker offset that [find] returned
    never makes it raise. *)
Theorem get_original_rom_size_cases (rpx_data : bytes) (wup_offset : Z) :
  (get_original_rom_size rpx_data wup_offset = Some None
   <-> (wup_offset = -1
        \/ wup_offset + 0x10 >= len rpx_data
        \/ exists size_byte,
             py_index rpx_data (wup_offset + 0x0E) = Some size_byte
             /\ size_map !! size_byte = None))
  /\ (forall size,
        get_original_rom_size rpx_data wup_offset = Some (Some size)
        <-> (wup_offset <> -1
             /\ wup_offset + 0x10 < len rpx_data
             /\ exists size_byte,
                  py_index rpx_data (wup_offset + 0x0E) = Some size_byte
                  /\ size_map !! size_byte = Some size))
  /\ (forall size_byte size,
        size_map !! size_byte = Some size
        <-> (size_byte, size) ∈
              [ (0x40, 4194304); (0x20, 2097152); (0x10, 1048576);
                (0x08, 524288); (0x04, 262144); (0x02, 131072);
                (0x01, 65536); (0x00, 32768) ])
  /\ (-1 <= wup_offset -> is_Some (get_original_rom_size rpx_data wup_offset)).
Proof.
  unfold get_original_rom_size.
  destruct (Z.eqb_spec wup_offset (-1)) as [-> | Hfound]; cbn [orb].
  { split_and!; [split; [by left | done] | | apply size_map_lookup | by eexists].
    intros size. split; [done | by intros [? _]]. }
  destruct (Z.geb_spec (wup_offset + 0x10) (len rpx_data)) as [Hend | Hin].
  { split_and!;
      [split; [right; left; lia | done] | | apply size_map_lookup | by eexists].
    intros size. split; [done | intros (_ & ? & _); lia]. }
  destruct (py_index rpx_data (wup_offset + 0x0E)) as [size_byte |] eqn:Hbyte;
    cbn [mbind option_bind].
  - split_and!; [| | apply size_map_lookup | by eexists].
    + split.
      * intros [= Hnone]. right. right. by exists size_byte.
      * intros [? | [? | (b & [= <-] & ->)]]; done || lia.
    + intros size. split.
      * intros [= Hsome]. split_and!; [done | lia |]. by exists size_byte.
      * intros (_ & _ & b & [= <-] & ->). done.
  - split_and!; [| | apply size_map_lookup |].
    + split; [done |]. intros [? | [? | (b & ? & _)]]; done || lia.
    + intros size. split; [done |]. intros (_ & _ & b & ? & _). done.
    + intros Hlow. exfalso. revert Hbyte. unfold py_index.
      pose proof (len_nonneg rpx_data).
      destruct (Z.ltb_spec (wup_offset + 0x0E) 0); [lia |].
      destruct (Z.leb_spec 0 (wup_offset + 0x0E)); [| lia].
      destruct (Z.ltb_spec (wup_offset + 0x0E) (len rpx_data)); [| lia].
      cbn [andb]. intros Hnone. apply lookup_ge_None in Hnone.
      unfold len in *. lia.
Qed.

(** ** More on the splicer *)

Lemma len_take_in_range (data : bytes) (n : Z) :
  0 <= n <= len data -> len (take (Z.to_nat n) data) = n.
Proof. intros Hn. unfold len in *. rewrite length_take. lia. Qed.

Lemma len_drop_in_range (data : bytes) (n : Z) :
  0 <= n <= len data -> len (drop (Z.to_nat n) data) = len data - n.
Proof. intros Hn. unfold len in *. rewrite length_drop. lia. Qed.

(** What [inject_rom] returns for a window in range, with plain [take] and
    [drop]. *)
Lemma inject_rom_in_range (rpx_data rom_data : bytes) (offset size : Z) :
  0 <= offset -> len rom_data <= size -> offset + size <= len rpx_data ->
  inject_rom rpx_data rom_data offset (Some size)
    = Some (inr (take (Z.to_nat offset) rpx_data
                 ++ (rom_data ++ replicate (Z.to_nat (size - len rom_data)) 0xFF)
                 ++ drop (Z.to_nat (offset + size)) rpx_data)).
Proof.
  intros Hoff Hfit Hin. pose proof (len_nonneg rom_data).
  rewrite inject_rom_accepted by done.
  by rewrite py_slice_to_take, py_slice_from_drop by lia.
Qed.

Lemma len_inject_rom_in_range (rpx_data rom_data out : bytes) (offset size : Z) :
  0 <= offset ->
  inject_rom rpx_data rom_data offset (Some size) = Some (inr out) ->
  len out = len rpx_data.
Proof.
  intros Hoff Hrun. pose proof (len_nonneg rom_data).
  destruct (Z_gt_le_dec (len rom_data) size) as [Hbig | Hfit].
  { by rewrite inject_rom_too_large in Hrun. }
  destruct (Z_gt_le_dec (offset + size) (len rpx_data)) as [Hout | Hin].
  { by rewrite inject_rom_out_of_bounds in Hrun. }
  rewrite inject_rom_in_range in Hrun by done. simplify_eq.
  rewrite !len_app, len_replicate, len_take_in_range, len_drop_in_range by lia.
  lia.
Qed.

(** X1. Putting back what a window holds changes nothing: for a window
    [offset, offset + size) inside the container, injecting the bytes of that
    window at that offset returns the container itself. *)
Theorem inject_rom_window_round_trip (rpx_data : bytes) (offset size : Z) :
  0 <= offset -> 0 <= size -> offset + size <= len rpx_data ->
  inject_rom rpx_data (py_slice rpx_data offset (offset + size)) offset (Some size)
    = Some (inr rpx_data).
Proof.
  intros Hoff Hsize Hin.
  assert (Hl : len (py_slice rpx_data offset (offset + size)) = size).
  { rewrite len_py_slice by lia. lia. }
  rewrite inject_rom_in_range by lia.
  rewrite Hl, Z.sub_diag. cbn [Z.to_nat replicate]. rewrite app_nil_r.
  rewrite py_slice_take_drop by lia.
  replace (Z.to_nat (offset + size - offset)) with (Z.to_nat size) by lia.
  replace (Z.to_nat (offset + size)) with (Z.to_nat offset + Z.to_nat size)%nat
    by lia.
  rewrite <- drop_drop, take_drop, take_drop. done.
Qed.

Lemma inject_rom_window_round_trip_witness :
  inject_rom [1; 2; 3; 4; 5; 6; 7; 8] (py_slice [1; 2; 3; 4; 5; 6; 7; 8] 2 (2 + 3))
    2 (Some 3)
  = Some (inr [1; 2; 3; 4; 5; 6; 7; 8]).
Proof.
  apply (inject_rom_window_round_trip [1; 2; 3; 4; 5; 6; 7; 8] 2 3);
    vm_compute; discriminate.
Defined.

(** X2. A second injection into the same window replaces the first: the
    result is what injecting the second payload into the original container
    gives. *)
Theorem inject_rom_overwrite (rpx_data rom1 rom2 : bytes) (offset size : Z) :
  0 <= offset -> len rom1 <= size -> len rom2 <= size ->
  offset + size <= len rpx_data ->
  exists out1,
    inject_rom rpx_data rom1 offset (Some size) = Some (inr out1)
    /\ inject_rom out1 rom2 offset (Some size)
       = inject_rom rpx_data rom2 offset (Some size).
Proof.
  intros Hoff Hfit1 Hfit2 Hin.
  pose proof (len_nonneg rom1). pose proof (len_nonneg rom2).
  eexists. split; [by apply inject_rom_in_range |].
  set (padded1 := rom1 ++ replicate (Z.to_nat (size - len rom1)) 255).
  assert (Hp1 : len padded1 = size) by by apply len_padded.
  assert (Hpre : length (take (Z.to_nat offset) rpx_data) = Z.to_nat offset).
  { rewrite length_take, length_len. lia. }
  rewrite !inject_rom_in_range; try lia.
  - do 3 f_equal.
    + rewrite take_app_le by lia. rewrite take_take. f_equal. lia.
    + f_equal.
      replace (Z.to_nat (offset + size))
        with (length (take (Z.to_nat offset) rpx_data) + length padded1)%nat
        by (rewrite Hpre, (length_len padded1), Hp1; lia).
      rewrite <- drop_drop, drop_app_length, drop_app_length.
      by rewrite Hpre, (length_len padded1), Hp1.
  - rewrite !len_app, Hp1, len_take_in_range, len_drop_in_range by lia. lia.
Qed.

Lemma inject_rom_overwrite_witness :
  exists out1,
    inject_rom [1; 2; 3; 4; 5; 6; 7; 8] [20; 21] 2 (Some 3) = Some (inr out1)
    /\ inject_rom out1 [30] 2 (Some 3)
       = inject_rom [1; 2; 3; 4; 5; 6; 7; 8] [30] 2 (Some 3).
Proof.
  apply (inject_rom_overwrite [1; 2; 3; 4; 5; 6; 7; 8] [20; 21] [30] 2 3);
    vm_compute; discriminate.
Defined.

(** X3. Called without an original size, [inject_rom] never refuses the
    payload as too large: it reserves a size that is at least the payload's
    length and, for a payload that is not empty, less than twice that
    length, and it fails only when the window of that size ends past the
    container. *)
Theorem inject_rom_default_size_bounds (rpx_data rom_data : bytes) (offset : Z) :
  exists size,
    double_until (length rom_data) 1 (len rom_data) = Some size
    /\ len rom_data <= size
    /\ (0 < len rom_data -> size < 2 * len rom_data)
    /\ inject_rom rpx_data rom_data offset None <> Some (inl PayloadTooLarge)
    /\ (inject_rom rpx_data rom_data offset None = Some (inl OffsetOutOfBounds)
        <-> offset + size > len rpx_data).
Proof.
  destruct (default_size_spec rom_data) as (k & Hk & Heq & Hle & Hmin).
  exists (2 ^ k).
  assert (Hrun : inject_rom rpx_data rom_data offset None
                 = inject_rom rpx_data rom_data offset (Some (2 ^ k))).
  { unfold inject_rom. by rewrite Heq. }
  split_and!; [done | done | | |].
  - intros Hpos. destruct (decide (k = 0)) as [-> | Hne].
    + change (2 ^ 0) with 1. lia.
    + destruct (Z.le_gt_cases (len rom_data) (2 ^ (k - 1))) as [Hsmall | Hlarge].
      * specialize (Hmin (k - 1) ltac:(lia) Hsmall).
        assert (2 ^ (k - 1) < 2 ^ k) by (apply Z.pow_lt_mono_r; lia). lia.
      * replace k with (Z.succ (k - 1)) at 1 by lia.
        rewrite Z.pow_succ_r by lia. lia.
  - rewrite Hrun.
    destruct (Z_gt_le_dec (offset + 2 ^ k) (len rpx_data)).
    + by rewrite inject_rom_out_of_bounds.
    + by rewrite inject_rom_accepted.
  - rewrite Hrun.
    destruct (Z_gt_le_dec (offset + 2 ^ k) (len rpx_data)).
    + by rewrite inject_rom_out_of_bounds.
    + rewrite inject_rom_accepted by done. split; [done | lia].
Qed.

(** X4. A negative offset is not refused. When the window it names ends at
    or after index 0, and the payload fits the original size, [inject_rom]
    returns a buffer longer than the container: the head is cut counting
    from the container's end and the tail counting from its start. *)
Theorem inject_rom_negative_offset_grows (rpx_data rom_data : bytes)
    (offset size : Z) :
  offset < 0 -> 0 <= offset + size -> len rom_data <= size ->
  offset + size <= len rpx_data ->
  exists out,
    inject_rom rpx_data rom_data offset (Some size) = Some (inr out)
    /\ len out = Z.max 0 (len rpx_data + offset) + (len rpx_data - offset)
    /\ len rpx_data < len out.
Proof.
  intros Hneg Hend Hfit Hin. pose proof (len_nonneg rpx_data).
  rewrite inject_rom_accepted by done. eexists. split; [done |].
  assert (Hlen : len (py_slice_to rpx_data offset
                      ++ (rom_data ++ replicate (Z.to_nat (size - len rom_data)) 255)
                      ++ py_slice_from rpx_data (offset + size))
                 = Z.max 0 (len rpx_data + offset) + (len rpx_data - offset)).
  { rewrite len_app, len_app, len_padded by done.
    rewrite py_slice_from_drop, len_drop_in_range by lia.
    unfold py_slice_to, py_bound.
    destruct (Z.ltb_spec offset 0); [| lia].
    rewrite len_take_in_range by lia. lia. }
  split; [done |]. rewrite Hlen. lia.
Qed.

Lemma inject_rom_negative_offset_grows_witness :
  exists out,
    inject_rom [1; 2; 3; 4; 5; 6; 7; 8; 9; 10] [20; 21] (-1) (Some 2)
      = Some (inr out)
    /\ len out = 20.
Proof.
  destruct (inject_rom_negative_offset_grows [1; 2; 3; 4; 5; 6; 7; 8; 9; 10]
              [20; 21] (-1) 2)
    as (out & Hrun & Hlen & _); try (vm_compute; discriminate); try done.
  by exists out.
Defined.

(** X5. A negative offset whose window ends before index 0 is an offset
    counted from the container's end: with an explicit original size,
    [inject_rom] does with it what it does with the container's length added
    to it. *)
Theorem inject_rom_negative_offset_from_end (rpx_data rom_data : bytes)
    (offset size : Z) :
  - len rpx_data <= offset -> offset + size < 0 ->
  inject_rom rpx_data rom_data offset (Some size)
    = inject_rom rpx_data rom_data (len rpx_data + offset) (Some size).
Proof.
  intros Hlow Hend.
  pose proof (len_nonneg rpx_data). pose proof (len_nonneg rom_data).
  destruct (Z_gt_le_dec (len rom_data) size) as [Hbig | Hfit].
  { by rewrite !inject_rom_too_large. }
  rewrite !inject_rom_accepted by lia. do 3 f_equal.
  - unfold py_slice_to, py_bound.
    destruct (Z.ltb_spec offset 0), (Z.ltb_spec (len rpx_data + offset) 0);
      try lia. f_equal. lia.
  - f_equal. unfold py_slice_from, py_bound.
    destruct (Z.ltb_spec (offset + size) 0),
      (Z.ltb_spec (len rpx_data + offset + size) 0); try lia. f_equal. lia.
Qed.

Lemma inject_rom_negative_offset_from_end_witness :
  inject_rom [1; 2; 3; 4; 5; 6; 7; 8; 9; 10] [20; 21] (-5) (Some 3)
    = Some (inr [1; 2; 3; 4; 5; 20; 21; 0xFF; 9; 10]).
Proof.
  rewrite (inject_rom_negative_offset_from_end
             [1; 2; 3; 4; 5; 6; 7; 8; 9; 10] [20; 21] (-5) 3).
  - by vm_compute.
  - vm_compute; discriminate.
  - done.
Defined.

(** ** More on the header codec *)

Lemma byte_at_lookup (data : bytes) (k : Z) :
  0 <= k < len data -> data !! Z.to_nat k = Some (byte_at data k).
Proof.
  intros Hk. unfold byte_at.
  destruct (lookup_lt_is_Some_2 data (Z.to_nat k)) as [x ->];
    [unfold len in *; lia | done].
Qed.

Lemma unpack_H_byte_at (data : bytes) (k : Z) :
  0 <= k -> k + 2 <= len data ->
  unpack_H (py_slice data k (k + 2))
    = Some (byte_at data k + 256 * byte_at data (k + 1)).
Proof.
  intros Hk Hfit.
  rewrite (py_slice_two data k (byte_at data k) (byte_at data (k + 1)));
    [done | done | by apply byte_at_lookup; lia |].
  replace (S (Z.to_nat k)) with (Z.to_nat (k + 1)) by lia.
  apply byte_at_lookup. lia.
Qed.

(** X6. [validate_snes_header] at a 0-based offset raises nothing and fails
    closed: it returns False when the 32-byte window ends past the buffer,
    and otherwise True exactly when the two 16-bit little-endian fields at
    0x1E and 0x1C of the window add up to 0xFFFF in their low 16 bits, or at
    least 15 of the 21 title bytes are printable ASCII or NUL. *)
Theorem validate_snes_header_cases (data : bytes) (offset : Z) :
  0 <= offset ->
  validate_snes_header data offset
    = Some (if decide (offset + 0x20 > len data) then false
            else
              let checksum :=
                byte_at data (offset + 0x1E) + 256 * byte_at data (offset + 0x1F) in
              let complement :=
                byte_at data (offset + 0x1C) + 256 * byte_at data (offset + 0x1D) in
              (Z.land (checksum + complement) 0xFFFF =? 0xFFFF)
              || (15 <=? count_printable (py_slice data offset (offset + 21)))).
Proof.
  intros Hoff. unfold validate_snes_header. case_decide as Hwin.
  - unfold validate_snes_header_verdict.
    destruct (Z.gtb_spec (offset + 0x20) (len data)); [done | lia].
  - destruct (validate_snes_header_verdict_in_range data offset)
      as (c & m & Hc & Hm & ->); [done | lia |].
    pose proof (unpack_H_byte_at data (offset + 0x1E) ltac:(lia) ltac:(lia))
      as Hc'.
    pose proof (unpack_H_byte_at data (offset + 0x1C) ltac:(lia) ltac:(lia))
      as Hm'.
    replace (offset + 0x1E + 2) with (offset + 0x20) in Hc' by lia.
    replace (offset + 0x1C + 2) with (offset + 0x1E) in Hm' by lia.
    replace (offset + 0x1E + 1) with (offset + 0x1F) in Hc' by lia.
    replace (offset + 0x1C + 1) with (offset + 0x1D) in Hm' by lia.
    rewrite Hc' in Hc. rewrite Hm' in Hm. simplify_eq.
    cbn [fmap option_fmap option_map]. f_equal.
    destruct (_ =? 0xFFFF); [done |]. cbn [orb].
    rewrite Z.geb_leb. by destruct (15 <=? _).
Qed.

(** A 32-byte buffer whose title is 21 letters A. *)
Lemma validate_snes_header_cases_witness :
  validate_snes_header (replicate 21 0x41 ++ replicate 11 0) 0 = Some true.
Proof.
  rewrite (validate_snes_header_cases (replicate 21 0x41 ++ replicate 11 0) 0);
    [by vm_compute | done].
Defined.

Lemma pack_into_H_in_range (data : bytes) (offset value : Z) :
  0 <= offset -> offset + 2 <= len data -> 0 <= value <= 0xFFFF ->
  pack_into_H data offset value
    = Some (<[S (Z.to_nat offset) := Z.land (Z.shiftr value 8) 0xFF]>
              (<[Z.to_nat offset := Z.land value 0xFF]> data)).
Proof.
  intros Hoff Hfit Hv. unfold pack_into_H.
  destruct (Z.ltb_spec offset 0); [lia |]. cbn [mbind option_bind].
  destruct (Z.ltb_spec (len data - offset) 2); [lia |].
  destruct (Z.leb_spec 0 value); [| lia].
  destruct (Z.leb_spec value 0xFFFF); [| lia]. cbn [andb negb].
  by replace (Z.to_nat (offset + 1)) with (S (Z.to_nat offset)) by lia.
Qed.

Lemma pack_into_H_past_end (data : bytes) (offset value : Z) :
  0 <= offset -> offset + 2 > len data -> pack_into_H data offset value = None.
Proof.
  intros Hoff Hout. unfold pack_into_H.
  destruct (Z.ltb_spec offset 0); [lia |]. cbn [mbind option_bind].
  destruct (Z.ltb_spec (len data - offset) 2); [done | lia].
Qed.

(** What [update_snes_header_checksum] leaves in a buffer that holds the
    header window. *)
Lemma update_snes_header_checksum_in_range (data : bytes) (offset : Z)
    (rt : rom_type) :
  let hp := header_offset_of offset rt in
  let checksum := Z.land (sum (py_slice_from data offset)) 0xFFFF in
  let complement := Z.lxor checksum 0xFFFF in
  0 <= hp -> hp + 0x20 <= len data ->
  update_snes_header_checksum data offset rt
    = Some (<[Z.to_nat (hp + 0x1F) := Z.land (Z.shiftr checksum 8) 0xFF]>
              (<[Z.to_nat (hp + 0x1E) := Z.land checksum 0xFF]>
                 (<[Z.to_nat (hp + 0x1D) := Z.land (Z.shiftr complement 8) 0xFF]>
                    (<[Z.to_nat (hp + 0x1C) := Z.land complement 0xFF]> data)))).
Proof.
  intros hp checksum complement Hhp Hfit.
  pose proof (u16_land (sum (py_slice_from data offset))) as Hc.
  fold checksum in Hc.
  pose proof (u16_complement checksum Hc) as Hsum. fold complement in Hsum.
  unfold update_snes_header_checksum. fold hp checksum complement.
  unfold SNES_CHECKSUM_COMP_OFFSET, SNES_CHECKSUM_OFFSET.
  rewrite pack_into_H_in_range by lia. cbn [mbind option_bind].
  rewrite pack_into_H_in_range
    by (rewrite ?len_insert; unfold len; rewrite ?length_insert;
        fold (len data); lia).
  replace (S (Z.to_nat (hp + 30))) with (Z.to_nat (hp + 31)) by lia.
  by replace (S (Z.to_nat (hp + 28))) with (Z.to_nat (hp + 29)) by lia.
Qed.

(** X7. For a header position that is a 0-based index,
    [update_snes_header_checksum] raises [struct.error] exactly when the
    32-byte header window ends past the buffer. *)
Theorem update_snes_header_checksum_raises (data : bytes) (offset : Z)
    (rt : rom_type) :
  0 <= header_offset_of offset rt ->
  update_snes_header_checksum data offset rt = None
  <-> header_offset_of offset rt + 0x20 > len data.
Proof.
  intros Hhp. split.
  - intros Hnone.
    destruct (Z_gt_le_dec (header_offset_of offset rt + 0x20) (len data));
      [done |].
    by rewrite update_snes_header_checksum_in_range in Hnone.
  - intros Hout. unfold update_snes_header_checksum.
    unfold SNES_CHECKSUM_COMP_OFFSET, SNES_CHECKSUM_OFFSET.
    destruct (Z_gt_le_dec (header_offset_of offset rt + 0x1C + 2) (len data))
      as [Hfirst | Hfirst].
    + by rewrite pack_into_H_past_end by lia.
    + pose proof (u16_land (sum (py_slice_from data offset))) as Hc.
      pose proof (u16_complement _ Hc) as Hsum.
      rewrite pack_into_H_in_range by lia. cbn [mbind option_bind].
      apply pack_into_H_past_end; [lia |].
      unfold len. rewrite !length_insert. fold (len data). lia.
Qed.

(** A LoROM header position in a buffer of 32 KB less one byte. *)
Lemma update_snes_header_checksum_raises_witness :
  update_snes_header_checksum (replicate (Z.to_nat 0x7FFF) 0) 0x20 lorom = None.
Proof.
  apply (update_snes_header_checksum_raises (replicate (Z.to_nat 0x7FFF) 0)
           0x20 lorom); vm_compute; done.
Defined.

(** X8. [update_snes_header_checksum] writes four bytes and nothing else:
    when it succeeds at a 0-based header position, the buffer keeps its
    length and every byte outside the positions 0x1C to 0x1F of the header
    window. *)
Theorem update_snes_header_checksum_frame (data data' : bytes) (offset : Z)
    (rt : rom_type) :
  0 <= header_offset_of offset rt ->
  update_snes_header_checksum data offset rt = Some data' ->
  len data' = len data
  /\ forall i, i < header_offset_of offset rt + 0x1C
               \/ header_offset_of offset rt + 0x20 <= i ->
       data' !! Z.to_nat i = data !! Z.to_nat i.
Proof.
  intros Hhp Hrun.
  destruct (Z_gt_le_dec (header_offset_of offset rt + 0x20) (len data))
    as [Hout | Hfit].
  { apply update_snes_header_checksum_raises in Hout; [congruence | done]. }
  rewrite update_snes_header_checksum_in_range in Hrun by done. simplify_eq.
  split.
  - unfold len. by rewrite !length_insert.
  - intros i Hi. destruct (Z.lt_ge_cases i 0) as [Hneg | Hpos].
    + replace (Z.to_nat i) with 0%nat by lia.
      destruct (decide (header_offset_of offset rt + 0x1C <= 0)); [lia |].
      by rewrite !list_lookup_insert_ne by lia.
    + by rewrite !list_lookup_insert_ne by lia.
Qed.

Lemma update_snes_header_checksum_frame_witness :
  let data := replicate (Z.to_nat 0x8000) 0 in
  exists data',
    update_snes_header_checksum data 0 lorom = Some data'
    /\ len data' = len data.
Proof.
  intros data.
  assert (Hhp : 0 <= header_offset_of 0 lorom) by (vm_compute; discriminate).
  assert (Hfit : header_offset_of 0 lorom + 0x20 <= len data)
    by (vm_compute; discriminate).
  pose proof (update_snes_header_checksum_in_range data 0 lorom Hhp Hfit) as Hrun.
  eexists. split; [exact Hrun |].
  exact (proj1 (update_snes_header_checksum_frame data _ 0 lorom Hhp Hrun)).
Defined.

(** ** More on the locator *)

Lemma probe_deltas_result (rpx_data rom_data : bytes) (sys : system)
    (wup_offset : Z) (deltas : list Z) :
  exists r,
    probe_deltas rpx_data rom_data sys wup_offset deltas = Some r
    /\ forall candidate, r = Some candidate ->
         exists delta, delta ∈ deltas
           /\ candidate = wup_offset + delta
           /\ candidate + len rom_data <= len rpx_data.
Proof.
  induction deltas as [| delta deltas (r & Hr & Hin)]; cbn [probe_deltas].
  { exists None. split; [done |]. intros ? [=]. }
  assert (Hrest : exists r',
    probe_deltas rpx_data rom_data sys wup_offset deltas = Some r'
    /\ forall candidate, r' = Some candidate ->
         exists d, d ∈ delta :: deltas
           /\ candidate = wup_offset + d
           /\ candidate + len rom_data <= len rpx_data).
  { exists r. split; [done |]. intros c Hc.
    destruct (Hin c Hc) as (d & ? & ? & ?). exists d. split; [by right | done]. }
  destruct (Z.leb_spec (wup_offset + delta + len rom_data) (len rpx_data));
    [| done].
  destruct sys; [| done].
  destruct (detect_snes_rom_type_returns
              (py_slice rpx_data (wup_offset + delta)
                 (wup_offset + delta + 0x10000))) as [[rt |] ->];
    cbn [mbind option_bind]; [| done].
  eexists. split; [done |]. intros c [= <-].
  exists delta. split; [by left | done].
Qed.

Lemma scan_headers_result (rpx_data : bytes) (header_offset : Z)
    (offsets : list Z) :
  (forall offset, offset ∈ offsets -> 0 <= offset + header_offset) ->
  exists r,
    scan_headers rpx_data header_offset offsets = Some r
    /\ forall offset, r = Some offset -> offset ∈ offsets.
Proof.
  induction offsets as [| offset offsets IH]; intros Hpos; cbn [scan_headers].
  { exists None. split; [done |]. intros ? [=]. }
  destruct (validate_snes_header_returns rpx_data (offset + header_offset))
    as [[] ->]; [apply Hpos; by left | |]; cbn [mbind option_bind].
  - eexists. split; [done |]. intros ? [= <-]. by left.
  - destruct IH as (r & -> & Hin); [intros; apply Hpos; by right |].
    exists r. split; [done |]. intros o Ho. right. by apply Hin.
Qed.

Lemma elem_of_py_range (start stop step x : Z) :
  0 < step -> x ∈ py_range start stop step -> start <= x < stop.
Proof.
  intros Hstep. unfold py_range.
  intros (k & -> & Hk)%list_elem_of_fmap.
  apply elem_of_seqZ in Hk.
  pose proof (Z.mul_div_le (stop - start + step - 1) step Hstep) as Hq.
  assert (step * (k + 1) <= step * ((stop - start + step - 1) `div` step))
    by (apply Z.mul_le_mono_nonneg_l; lia).
  lia.
Qed.

Lemma py_range_empty (start stop step : Z) :
  0 < step -> stop <= start -> py_range start stop step = [].
Proof.
  intros Hstep Hle. unfold py_range.
  rewrite seqZ_nil; [done |].
  assert ((stop - start + step - 1) `div` step < 1); [| lia].
  apply Z.div_lt_upper_bound; lia.
Qed.

(** X9. [find_rom_in_rpx] raises nothing, whatever the buffers, and what it
    returns is -1 or an offset inside the container. *)
Theorem find_rom_in_rpx_range (rpx_data rom_data : bytes) (sys : system) :
  exists offset,
    find_rom_in_rpx rpx_data rom_data sys = Some offset
    /\ (offset = -1 \/ 0 <= offset <= len rpx_data).
Proof.
  pose proof (len_nonneg rom_data). pose proof (len_nonneg rpx_data).
  unfold find_rom_in_rpx.
  assert (Hs1 : exists r,
    (if negb (find_wup_header rpx_data =? -1)
     then probe_deltas rpx_data rom_data sys (find_wup_header rpx_data)
            probe_delta_list
     else Some None) = Some r
    /\ forall c, r = Some c -> 0 <= c <= len rpx_data).
  { destruct (Z.eqb_spec (find_wup_header rpx_data) (-1)) as [| Hfound];
      cbn [negb].
    { exists None. split; [done |]. intros ? [=]. }
    destruct (probe_deltas_result rpx_data rom_data sys
                (find_wup_header rpx_data) probe_delta_list) as (r & Hr & Hin).
    exists r. split; [done |]. intros c Hc.
    destruct (Hin c Hc) as (delta & Hdelta & -> & Hfit).
    pose proof (find_lower_bound rpx_data WUP_SIGNATURE).
    unfold find_wup_header in *.
    assert (0x20 <= delta).
    { unfold probe_delta_list in Hdelta.
      repeat (apply elem_of_cons in Hdelta as [-> | Hdelta]; [lia |]).
      by apply elem_of_nil in Hdelta. }
    lia. }
  destruct Hs1 as ([c |] & -> & Hc); cbn [mbind option_bind].
  { exists c. split; [done |]. right. by apply Hc. }
  assert (Hcm : exists offset,
    (let search_bytes := py_slice_to rom_data 1024 in
     let offset := find rpx_data search_bytes in
     if negb (offset =? -1) then Some offset else Some (-1)) = Some offset
    /\ (offset = -1 \/ 0 <= offset <= len rpx_data)).
  { exists (find rpx_data (py_slice_to rom_data 1024)). cbv zeta.
    split; [by destruct (negb _) eqn:Hn;
              [| apply negb_false_iff, Z.eqb_eq in Hn; rewrite Hn] |].
    destruct (find_spec rpx_data (py_slice_to rom_data 1024))
      as [[-> _] | [(? & ? & _) _]]; [by left | right].
    pose proof (len_nonneg (py_slice_to rom_data 1024)). lia. }
  destruct sys; [| exact Hcm].
  destruct (detect_snes_rom_type_returns rom_data) as [rt ->].
  cbn [mbind option_bind]. cbv zeta.
  set (header_offset := match rt with
                        | Some lorom => SNES_LOROM_HEADER
                        | Some hirom => SNES_HIROM_HEADER
                        | None => SNES_LOROM_HEADER
                        end).
  assert (0 <= header_offset) by (by destruct rt as [[] |]).
  destruct (_ >? _); [| exact Hcm].
  destruct (scan_headers_result rpx_data header_offset
              (py_range 0x100000 (len rpx_data - 0x10000) 0x8000))
    as ([o |] & -> & Hin); [| | exact Hcm].
  { intros o Ho%elem_of_py_range; lia. }
  exists o. split; [done |]. right.
  specialize (Hin o eq_refl). apply elem_of_py_range in Hin; lia.
Qed.

(** X10. Where the marker is absent and the container has at most 0x110000
    bytes, neither the probe nor the structural scan has a position to look
    at, for either system: [find_rom_in_rpx] returns what the content match
    finds. *)
Theorem find_rom_in_rpx_small_container (rpx_data rom_data : bytes)
    (sys : system) :
  find_wup_header rpx_data = -1 -> len rpx_data <= 0x110000 ->
  find_rom_in_rpx rpx_data rom_data sys
    = Some (find rpx_data (take 1024 rom_data)).
Proof.
  intros Hwup Hsmall. unfold find_rom_in_rpx. rewrite Hwup.
  cbn [Z.eqb negb mbind option_bind].
  rewrite py_slice_to_take by lia. change (Z.to_nat 1024) with 1024%nat.
  assert (Hlast : (if negb (find rpx_data (take 1024 rom_data) =? -1)
                   then Some (find rpx_data (take 1024 rom_data))
                   else Some (-1))
                  = Some (find rpx_data (take 1024 rom_data))).
  { by destruct (negb _) eqn:Hn;
      [| apply negb_false_iff, Z.eqb_eq in Hn; rewrite Hn]. }
  destruct sys; [| done].
  destruct (detect_snes_rom_type_returns rom_data) as [rt ->].
  cbn [mbind option_bind].
  rewrite py_range_empty by lia. cbn [scan_headers].
  by destruct (_ >? _).
Qed.

(** A container of ten bytes without the marker. *)
Lemma find_rom_in_rpx_small_container_witness :
  find_rom_in_rpx [1; 2; 3; 4; 5; 6; 7; 8; 9; 10] [4; 5; 6] snes = Some 3.
Proof.
  rewrite (find_rom_in_rpx_small_container [1; 2; 3; 4; 5; 6; 7; 8; 9; 10]
             [4; 5; 6] snes).
  - by vm_compute.
  - by vm_compute.
  - vm_compute; discriminate.
Defined.

(** X11. An empty ROM is found at offset 0 of any container, as a match of
    the empty string, whenever the probe does not answer first: for NES
    always, for SNES when the marker is absent. *)
Theorem find_rom_in_rpx_empty_rom (rpx_data : bytes) (sys : system) :
  sys = nes \/ find_wup_header rpx_data = -1 ->
  find_rom_in_rpx rpx_data [] sys = Some 0.
Proof.
  intros Hsys.
  assert (Hfind : find rpx_data (py_slice_to [] 1024) = 0).
  { unfold find. by destruct rpx_data. }
  unfold find_rom_in_rpx. rewrite Hfind.
  assert (Hs1 : (if negb (find_wup_header rpx_data =? -1)
                 then probe_deltas rpx_data [] sys (find_wup_header rpx_data)
                        probe_delta_list
                 else Some None) = Some None).
  { destruct Hsys as [-> | ->]; [| done].
    destruct (negb _); [apply probe_deltas_nes | done]. }
  rewrite Hs1. cbn [mbind option_bind].
  destruct sys; [| done].
  destruct (detect_snes_rom_type_returns []) as [rt Hrt]. rewrite Hrt.
  cbn [mbind option_bind]. by destruct rt as [[] |].
Qed.

Lemma find_rom_in_rpx_empty_rom_witness :
  find_rom_in_rpx [1; 2; 3] [] nes = Some 0.
Proof. apply (find_rom_in_rpx_empty_rom [1; 2; 3] nes). by left. Defined.

(** ** The command line tool *)

Lemma get_original_rom_size_returns (rpx_data : bytes) (wup_offset : Z) :
  -1 <= wup_offset -> is_Some (get_original_rom_size rpx_data wup_offset).
Proof.
  intros Hlow. unfold get_original_rom_size.
  destruct (Z.eqb_spec wup_offset (-1)); [by eexists |].
  destruct (Z.geb_spec (wup_offset + 0x10) (len rpx_data)); [by eexists |].
  cbn [orb]. unfold py_index.
  destruct (Z.ltb_spec (wup_offset + 0x0E) 0); [lia |].
  destruct (Z.leb_spec 0 (wup_offset + 0x0E)); [| lia].
  destruct (Z.ltb_spec (wup_offset + 0x0E) (len rpx_data)); [| lia].
  cbn [andb].
  destruct (lookup_lt_is_Some_2 rpx_data (Z.to_nat (wup_offset + 0x0E)))
    as [b ->]; [unfold len in *; lia | by eexists].
Qed.

(** The ROM and the layout that [main] works with. *)
Lemma main_normalised (rom_file : bytes) (sys : system) :
  exists rom_data rt,
    match sys with
    | snes =>
        detect_snes_rom_type (strip_smc_header rom_file)
          ≫= fun rt : option rom_type =>
        Some (strip_smc_header rom_file, Some (match rt with
                                               | Some t => t
                                               | None => lorom
                                               end))
    | nes => Some (rom_file, None)
    end = Some (rom_data, rt)
    /\ (sys = snes -> rom_data = strip_smc_header rom_file /\ is_Some rt)
    /\ (sys = nes -> rom_data = rom_file /\ rt = None).
Proof.
  destruct sys.
  - destruct (detect_snes_rom_type_returns (strip_smc_header rom_file))
      as [d Hd].
    eexists _, _. rewrite Hd. cbn [mbind option_bind].
    split_and!; [done | | done]. intros _. split; [done | by eexists].
  - eexists _, _. split_and!; [done | done |]. by intros _.
Qed.

(** What lies behind an output that [main] writes. *)
Lemma main_wrote (rpx_file rom_file out : bytes) (a : args) :
  main rpx_file rom_file a = Some (wrote out) ->
  exists rom_data offset original_size result,
    (arg_offset a = Some offset
     \/ arg_offset a = None /\ 0 <= offset <= len rpx_file)
    /\ arg_dry_run a = false
    /\ inject_rom rpx_file rom_data offset original_size = Some (inr result)
    /\ match arg_system a with
       | snes => exists rt, update_snes_header_checksum result offset rt = Some out
       | nes => out = result
       end.
Proof.
  unfold main. cbv zeta.
  destruct (main_normalised rom_file (arg_system a))
    as (rom_data & rt & -> & Hsnes & Hnes).
  assert (Hloc : exists located,
    match arg_offset a with
    | Some offset => Some (Some offset)
    | None =>
        find_rom_in_rpx rpx_file rom_data (arg_system a) ≫= fun offset : Z =>
        if offset =? -1 then Some None else Some (Some offset)
    end = Some located
    /\ forall offset, located = Some offset ->
         arg_offset a = Some offset
         \/ arg_offset a = None /\ 0 <= offset <= len rpx_file).
  { destruct (arg_offset a) as [offset |].
    - eexists. split; [done |]. intros ? [= <-]. by left.
    - destruct (find_rom_in_rpx_range rpx_file rom_data (arg_system a))
        as (offset & -> & Hrange). cbn [mbind option_bind].
      destruct (Z.eqb_spec offset (-1)).
      + eexists. split; [done |]. intros ? [=].
      + eexists. split; [done |]. intros ? [= <-]. right. split; [done | lia]. }
  destruct Hloc as ([offset |] & -> & Hoff); [| done].
  specialize (Hoff offset eq_refl).
  destruct (match arg_rom_size a with
            | Some size => Some (Some size)
            | None => get_original_rom_size rpx_file (find_wup_header rpx_file)
            end) as [original_size |]; [| done].
  destruct (arg_dry_run a) eqn:Hdry; [done |].
  destruct (inject_rom rpx_file rom_data offset original_size)
    as [[e | result] |] eqn:Hinj; [done | | done].
  intros Hout. exists rom_data, offset, original_size, result.
  split_and!; [done | done | done |].
  destruct (arg_system a).
  - destruct (Hsnes eq_refl) as [_ [rt' ->]].
    destruct (update_snes_header_checksum result offset rt') eqn:Hup;
      [| done].
    cbn [mbind option_bind] in Hout. exists rt'. congruence.
  - destruct (Hnes eq_refl) as [_ ->]. congruence.
Qed.

Lemma len_inject_rom_result (rpx_data rom_data out : bytes) (offset : Z)
    (original_size : option Z) :
  0 <= offset ->
  inject_rom rpx_data rom_data offset original_size = Some (inr out) ->
  len out = len rpx_data.
Proof.
  intros Hoff Hrun. destruct original_size as [size |].
  - by apply (len_inject_rom_in_range _ rom_data _ offset size).
  - destruct (default_size_spec rom_data) as (k & _ & Hk & _).
    apply (len_inject_rom_in_range _ rom_data _ offset (2 ^ k)); [done |].
    rewrite <- Hrun. unfold inject_rom. by rewrite Hk.
Qed.

(** After [update_snes_header_checksum] at a 0-based header position the
    header is accepted by the checksum test. *)
Lemma update_snes_header_checksum_verdict (data data' : bytes) (offset : Z)
    (rt : rom_type) :
  0 <= header_offset_of offset rt ->
  update_snes_header_checksum data offset rt = Some data' ->
  validate_snes_header_verdict data' (header_offset_of offset rt)
    = Some checksum_match.
Proof.
  intros Hhp Hrun. set (hp := header_offset_of offset rt) in *.
  destruct (Z_gt_le_dec (hp + 0x20) (len data)) as [Hout | Hfit].
  { apply update_snes_header_checksum_raises in Hout; [congruence | done]. }
  pose proof (u16_land (sum (py_slice_from data offset))) as Hc.
  set (checksum := Z.land (sum (py_slice_from data offset)) 0xFFFF) in *.
  pose proof (u16_complement checksum Hc) as Hsum.
  set (complement := Z.lxor checksum 0xFFFF) in *.
  destruct (pack_into_H_spec data (hp + 0x1C) complement)
    as (data1 & Hp1 & Hl1 & Hr1 & _); [lia | lia | lia |].
  destruct (pack_into_H_spec data1 (hp + 0x1E) checksum)
    as (data2 & Hp2 & Hl2 & Hr2 & Hk2); [lia | lia | lia |].
  assert (data' = data2) as ->.
  { revert Hrun. unfold update_snes_header_checksum.
    fold hp checksum complement.
    unfold SNES_CHECKSUM_COMP_OFFSET, SNES_CHECKSUM_OFFSET.
    rewrite Hp1. cbn [mbind option_bind]. rewrite Hp2. congruence. }
  destruct (validate_snes_header_verdict_in_range data2 hp)
    as (c & m & Hc' & Hm' & ->); [lia | lia |].
  replace (hp + 0x1E + 2) with (hp + 0x20) in Hr2 by lia.
  rewrite Hr2 in Hc'.
  replace (hp + 0x1E) with (hp + 0x1C + 2) in Hm' by lia.
  rewrite (py_slice_two_unchanged data1 data2) in Hm';
    [| lia | lia | done | apply Hk2; lia | apply Hk2; lia].
  rewrite Hr1 in Hm'. simplify_eq. by rewrite Hsum.
Qed.

(** X12. When [main] writes an output, that output has the length of the
    RPX file it read, provided the offset, if one was given on the command
    line, is not negative. *)
Theorem main_output_length (rpx_file rom_file out : bytes) (a : args) :
  (forall offset, arg_offset a = Some offset -> 0 <= offset) ->
  main rpx_file rom_file a = Some (wrote out) ->
  len out = len rpx_file.
Proof.
  intros Hoff Hmain.
  destruct (main_wrote _ _ _ _ Hmain)
    as (rom_data & offset & size & result & Hsrc & _ & Hinj & Hout).
  assert (0 <= offset) by (destruct Hsrc as [? | [_ ?]]; [by apply Hoff | lia]).
  pose proof (len_inject_rom_result _ _ _ _ _ ltac:(done) Hinj) as Hlen.
  destruct (arg_system a); [| by subst].
  destruct Hout as [rt Hup].
  apply update_snes_header_checksum_frame in Hup as [Hl _]; [lia |].
  unfold header_offset_of, SNES_LOROM_HEADER, SNES_HIROM_HEADER.
  destruct rt; lia.
Qed.

Lemma main_output_length_witness :
  let a := {| arg_system := nes; arg_offset := None;
              arg_rom_size := None; arg_dry_run := false |} in
  main [1; 2; 3; 4; 5; 6; 7; 8; 9; 10] [4; 5; 6] a
    = Some (wrote [1; 2; 3; 4; 5; 6; 0xFF; 8; 9; 10])
  /\ len [1; 2; 3; 4; 5; 6; 0xFF; 8; 9; 10] = len [1; 2; 3; 4; 5; 6; 7; 8; 9; 10].
Proof.
  intros a.
  assert (Hmain : main [1; 2; 3; 4; 5; 6; 7; 8; 9; 10] [4; 5; 6] a
                  = Some (wrote [1; 2; 3; 4; 5; 6; 0xFF; 8; 9; 10]))
    by (by vm_compute).
  split; [exact Hmain |].
  apply (main_output_length _ [4; 5; 6] _ a); [| exact Hmain].
  intros offset Hoff. discriminate Hoff.
Defined.


(** X14. For NES [main] ends without an uncaught exception, whatever the
    files and the arguments. *)
Theorem main_nes_returns (rpx_file rom_file : bytes) (a : args) :
  arg_system a = nes -> is_Some (main rpx_file rom_file a).
Proof.
  intros Hsys. unfold main. cbv zeta. rewrite Hsys.
  assert (Hloc : exists located,
    match arg_offset a with
    | Some offset => Some (Some offset)
    | None =>
        find_rom_in_rpx rpx_file rom_file nes ≫= fun offset : Z =>
        if offset =? -1 then Some None else Some (Some offset)
    end = Some located).
  { destruct (arg_offset a); [by eexists |].
    destruct (find_rom_in_rpx_range rpx_file rom_file nes) as (o & -> & _).
    cbn [mbind option_bind]. destruct (o =? -1); by eexists. }
  destruct Hloc as ([offset |] & ->); [| by eexists].
  assert (Hsize : exists original_size,
    match arg_rom_size a with
    | Some size => Some (Some size)
    | None => get_original_rom_size rpx_file (find_wup_header rpx_file)
    end = Some original_size).
  { destruct (arg_rom_size a); [by eexists |].
    apply get_original_rom_size_returns, find_lower_bound. }
  destruct Hsize as (original_size & ->).
  destruct (arg_dry_run a); [by eexists |].
  destruct (inject_rom_returns rpx_file rom_file offset original_size)
    as [[e | result] ->]; by eexists.
Qed.

Lemma main_nes_returns_witness :
  is_Some (main [1; 2; 3] [9]
             {| arg_system := nes; arg_offset := None;
                arg_rom_size := None; arg_dry_run := false |}).
Proof. apply main_nes_returns. reflexivity. Defined.


(** X15. For SNES [main] ends in an uncaught [struct.error], and writes
    nothing, when the injection succeeds but the header of the layout that
    it took for the ROM ends past the container: the layout is the one
    detected in the ROM, LoROM when none is, and not the one the container
    holds. *)
Theorem main_snes_header_past_end (rpx_file rom_file : bytes) (a : args)
    (offset size : Z) (detected : option rom_type) :
  arg_system a = snes ->
  arg_offset a = Some offset -> 0 <= offset ->
  arg_rom_size a = Some size ->
  arg_dry_run a = false ->
  detect_snes_rom_type (strip_smc_header rom_file) = Some detected ->
  len (strip_smc_header rom_file) <= size ->
  offset + size <= len rpx_file ->
  header_offset_of offset (match detected with
                           | Some t => t
                           | None => lorom
                           end) + 0x20 > len rpx_file ->
  main rpx_file rom_file a = None.
Proof.
  intros Hsys Hoff Hpos Hsize Hdry Hdet Hfit Hin Hpast.
  unfold main. cbv zeta. rewrite Hsys, Hoff, Hsize, Hdry, Hdet.
  cbn [mbind option_bind].
  destruct (inject_rom rpx_file (strip_smc_header rom_file) offset (Some size))
    as [[e | result] |] eqn:Hinj.
  - by rewrite inject_rom_accepted in Hinj.
  - pose proof (len_inject_rom_in_range _ _ _ _ _ Hpos Hinj) as Hlen.
    set (layout := match detected with
                   | Some t => t
                   | None => lorom
                   end) in *.
    assert (Hup : update_snes_header_checksum result offset layout = None).
    { apply update_snes_header_checksum_raises; [| lia].
      unfold header_offset_of, SNES_LOROM_HEADER, SNES_HIROM_HEADER.
      destruct layout; lia. }
    by rewrite Hup.
  - done.
Qed.

(** A container of ten bytes: the two bytes go in at offset 3, the LoROM
    header position is far past the end. *)
Lemma main_snes_header_past_end_witness :
  main [1; 2; 3; 4; 5; 6; 7; 8; 9; 10] [20; 21]
    {| arg_system := snes; arg_offset := Some 3;
       arg_rom_size := Some 2; arg_dry_run := false |}
  = None.
Proof.
  apply (main_snes_header_past_end _ _ _ 3 2 None);
    try reflexivity; vm_compute; discriminate.
Defined.

(** ** The checksum and the bytes it is written over *)

Lemma sum_app (a b : bytes) : sum (a ++ b) = sum a + sum b.
Proof.
  unfold sum. induction a as [| x a IH]; cbn [foldr app]; [lia |].
  fold (a ++ b). lia.
Qed.

Lemma sum_insert (data : bytes) (i : nat) (x : Z) :
  (i < length data)%nat ->
  sum (<[i := x]> data) = sum data - default 0 (data !! i) + x.
Proof.
  revert i. induction data as [| d data IH]; intros [| i] Hi;
    cbn [length] in Hi; try lia.
  - unfold sum. cbn. lia.
  - change (<[S i := x]> (d :: data)) with (d :: <[i := x]> data).
    change ((d :: data) !! S i) with (data !! i).
    unfold sum in *. cbn [foldr]. rewrite IH by lia. lia.
Qed.

Lemma u16_byte_sum (value : Z) :
  0 <= value <= 0xFFFF ->
  Z.land value 0xFF + Z.land (Z.shiftr value 8) 0xFF
  + Z.land (Z.lxor value 0xFFFF) 0xFF
  + Z.land (Z.shiftr (Z.lxor value 0xFFFF) 8) 0xFF = 0x1FE.
Proof.
  intros Hv. pose proof (u16_complement value Hv) as Hsum.
  assert (Hc : 0 <= Z.lxor value 0xFFFF <= 0xFFFF) by lia.
  pose proof (u16_bytes value Hv) as Hb1.
  pose proof (u16_bytes (Z.lxor value 0xFFFF) Hc) as Hb2.
  assert (Hbyte : forall x, 0 <= Z.land x 0xFF <= 0xFF).
  { intros x. change 0xFF with (Z.ones 8). rewrite Z.land_ones by lia.
    change (2 ^ 8) with 256. change (Z.ones 8) with 255.
    pose proof (Z.mod_pos_bound x 256). lia. }
  pose proof (Hbyte value). pose proof (Hbyte (Z.shiftr value 8)).
  pose proof (Hbyte (Z.lxor value 0xFFFF)).
  pose proof (Hbyte (Z.shiftr (Z.lxor value 0xFFFF) 8)). lia.
Qed.

(** X16. The checksum that [update_snes_header_checksum] stores is the sum
    of the bytes before the header fields are written. For a payload offset
    and a header window in range, the sum of the bytes from the payload
    offset on is afterwards the old sum, less the four bytes that were at
    0x1C to 0x1F of the header, plus 0x1FE, the sum of the four bytes
    written. *)
Theorem update_snes_header_checksum_sum (data data' : bytes) (offset : Z)
    (rt : rom_type) :
  0 <= offset -> header_offset_of offset rt + 0x20 <= len data ->
  update_snes_header_checksum data offset rt = Some data' ->
  let hp := header_offset_of offset rt in
  sum (py_slice_from data' offset)
    = sum (py_slice_from data offset)
      - (byte_at data (hp + 0x1C) + byte_at data (hp + 0x1D)
         + byte_at data (hp + 0x1E) + byte_at data (hp + 0x1F))
      + 0x1FE.
Proof.
  intros Hoff Hfit Hrun hp.
  assert (Hhp : offset + 0x7FC0 <= hp).
  { unfold hp, header_offset_of, SNES_LOROM_HEADER, SNES_HIROM_HEADER.
    destruct rt; lia. }
  rewrite update_snes_header_checksum_in_range in Hrun by (fold hp; lia).
  fold hp in Hrun. simplify_eq.
  pose proof (u16_land (sum (py_slice_from data offset))) as Hc.
  set (checksum := Z.land (sum (py_slice_from data offset)) 0xFFFF) in *.
  pose proof (u16_byte_sum checksum Hc) as Hbytes.
  assert (Hlen : (Z.to_nat (hp + 0x1F) < length data)%nat)
    by (unfold len in Hfit; lia).
  rewrite !py_slice_from_drop by lia.
  rewrite !drop_insert_ge by lia.
  rewrite !sum_insert by (rewrite ?length_insert, length_drop; lia).
  rewrite !list_lookup_insert_ne by lia.
  rewrite !lookup_drop.
  unfold byte_at.
  replace (Z.to_nat offset + (Z.to_nat (hp + 0x1F) - Z.to_nat offset))%nat
    with (Z.to_nat (hp + 0x1F)) by lia.
  replace (Z.to_nat offset + (Z.to_nat (hp + 0x1E) - Z.to_nat offset))%nat
    with (Z.to_nat (hp + 0x1E)) by lia.
  replace (Z.to_nat offset + (Z.to_nat (hp + 0x1D) - Z.to_nat offset))%nat
    with (Z.to_nat (hp + 0x1D)) by lia.
  replace (Z.to_nat offset + (Z.to_nat (hp + 0x1C) - Z.to_nat offset))%nat
    with (Z.to_nat (hp + 0x1C)) by lia.
  lia.
Qed.

(** A 32 KB buffer of zeros, repaired as a LoROM payload at offset 0: the
    sum of the bytes is 0x1FE afterwards, not the stored checksum 0. *)
Lemma update_snes_header_checksum_sum_witness :
  let data := replicate (Z.to_nat 0x8000) 0 in
  exists data',
    update_snes_header_checksum data 0 lorom = Some data'
    /\ sum (py_slice_from data' 0)
       = sum (py_slice_from data 0)
         - (byte_at data (header_offset_of 0 lorom + 0x1C)
            + byte_at data (header_offset_of 0 lorom + 0x1D)
            + byte_at data (header_offset_of 0 lorom + 0x1E)
            + byte_at data (header_offset_of 0 lorom + 0x1F))
         + 0x1FE.
Proof.
  intros data.
  assert (Hoff : 0 <= 0) by (vm_compute; discriminate).
  assert (Hhp : 0 <= header_offset_of 0 lorom) by (vm_compute; discriminate).
  assert (Hfit : header_offset_of 0 lorom + 0x20 <= len data)
    by (vm_compute; discriminate).
  pose proof (update_snes_header_checksum_in_range data 0 lorom Hhp Hfit) as Hrun.
  eexists. split; [exact Hrun |].
  exact (update_snes_header_checksum_sum data _ 0 lorom Hoff Hfit Hrun).
Defined.

(** ** Injection and repair over the object store *)

Lemma inject_rom_obj_result (h : gmap nat bytes) (rpx_ref rom_ref : nat)
    (rpx_data rom_data : bytes) (offset : Z) (original_size : option Z) :
  h !! rpx_ref = Some rpx_data -> h !! rom_ref = Some rom_data ->
  returns (inject_rom_obj rpx_ref rom_ref offset original_size) h
    (fun res h' =>
       match inject_rom rpx_data rom_data offset original_size with
       | Some (inr out) =>
           exists r, res = Some r /\ h !! r = None /\ h' !! r = Some out
       | Some (inl _) => res = None
       | None => False
       end).
Proof.
  intros Hrpx Hrom. destruct original_size as [size |].
  { by apply inject_rom_obj_sized. }
  destruct (default_size_spec rom_data) as (k & _ & Hk & _).
  unfold returns.
  rewrite (inject_rom_obj_default _ _ _ rom_data _ (2 ^ k)) by done.
  replace (inject_rom rpx_data rom_data offset None)
    with (inject_rom rpx_data rom_data offset (Some (2 ^ k)))
    by (unfold inject_rom; by rewrite Hk).
  by apply inject_rom_obj_sized.
Qed.

(** X17. The injection followed by the checksum repair, as [main] runs them
    on [bytearray] objects: for a window and a header position in range,
    both calls succeed; the repair updates the object that the injection
    made, which did not exist before, so every object of the initial store,
    the container and the ROM among them, holds afterwards the bytes it held
    before, and the new object holds a header that the checksum test
    accepts. *)
Theorem inject_then_update_keeps_inputs (h : gmap nat bytes)
    (rpx_ref rom_ref : nat) (rpx_data rom_data : bytes) (offset size : Z)
    (rt : rom_type) :
  h !! rpx_ref = Some rpx_data -> h !! rom_ref = Some rom_data ->
  0 <= offset -> len rom_data <= size -> offset + size <= len rpx_data ->
  header_offset_of offset rt + 0x20 <= len rpx_data ->
  exists r h1 h2 out,
    inject_rom_obj rpx_ref rom_ref offset (Some size) h = Some (Some r, h1)
    /\ update_snes_header_checksum_obj r offset rt h1 = Some (tt, h2)
    /\ h !! r = None
    /\ (forall x content, h !! x = Some content -> h2 !! x = Some content)
    /\ h2 !! r = Some out
    /\ validate_snes_header_verdict out (header_offset_of offset rt)
       = Some checksum_match.
Proof.
  intros Hrpx Hrom Hoff Hfit Hin Hhdr.
  destruct (inject_rom_obj_result h rpx_ref rom_ref rpx_data rom_data offset
              (Some size) Hrpx Hrom) as (res & h1 & Hrun & Hsub & Hres).
  destruct (inject_rom rpx_data rom_data offset (Some size))
    as [[e | result] |] eqn:Hinj; [| | done].
  { by rewrite inject_rom_accepted in Hinj. }
  destruct Hres as (r & -> & Hfresh & Hr).
  pose proof (len_inject_rom_in_range _ _ _ _ _ Hoff Hinj) as Hlen.
  assert (Hhp : 0 <= header_offset_of offset rt).
  { unfold header_offset_of, SNES_LOROM_HEADER, SNES_HIROM_HEADER.
    destruct rt; lia. }
  destruct (update_snes_header_checksum result offset rt) as [out |] eqn:Hup.
  2: { apply update_snes_header_checksum_raises in Hup; [lia | done]. }
  exists r, h1, (<[r := out]> h1), out. split_and!.
  - done.
  - unfold update_snes_header_checksum_obj, st_bind, st_read, st_lift, st_write.
    by rewrite Hr, Hup, Hr.
  - done.
  - intros x content Hx. rewrite lookup_insert_ne by congruence.
    by apply (lookup_weaken h h1).
  - apply lookup_insert_eq.
  - by apply (update_snes_header_checksum_verdict result).
Qed.

(** The container at address 7 and the ROM at address 3. *)
Lemma inject_then_update_keeps_inputs_witness :
  let rpx_data := replicate (Z.to_nat 0x8000) 0 in
  let rom_data := replicate (Z.to_nat 0x8000) 1 in
  let h : gmap nat bytes := <[7%nat := rpx_data]> (<[3%nat := rom_data]> ∅) in
  exists r h1 h2,
    inject_rom_obj 7 3 0 (Some 0x8000) h = Some (Some r, h1)
    /\ update_snes_header_checksum_obj r 0 lorom h1 = Some (tt, h2)
    /\ h2 !! 7%nat = Some rpx_data.
Proof.
  intros rpx_data rom_data h.
  assert (H7 : h !! 7%nat = Some rpx_data) by apply lookup_insert_eq.
  assert (H3 : h !! 3%nat = Some rom_data).
  { unfold h. rewrite lookup_insert_ne by discriminate. apply lookup_insert_eq. }
  assert (Hoff : 0 <= 0) by (vm_compute; discriminate).
  assert (Hfit : len rom_data <= 0x8000) by (vm_compute; discriminate).
  assert (Hin : 0 + 0x8000 <= len rpx_data) by (vm_compute; discriminate).
  assert (Hhdr : header_offset_of 0 lorom + 0x20 <= len rpx_data)
    by (vm_compute; discriminate).
  destruct (inject_then_update_keeps_inputs h 7 3 rpx_data rom_data 0 0x8000
              lorom H7 H3 Hoff Hfit Hin Hhdr)
    as (r & h1 & h2 & out & Hrun & Hup & _ & Hkeep & _).
  exists r, h1, h2. exact (conj Hrun (conj Hup (Hkeep _ _ H7))).
Defined.
